(** * Flip-clock sprite-sheet generator: model and properties

    Shallow embedding of
    [examples/spritesheet_generator/make_sprites_flip_animations.py].

    Conventions of the embedding:
    - Python [int] values are MathComp [int]; sizes of images, which PIL keeps
      non-negative, are [nat]; Python [str] values are [string].
    - The geometry of the planners and the linear system of [find_coeffs] are
      idealised over the rationals ([rat]): a Python [float] stands for the
      real number it approximates, true division [/] is exact division and
      numpy's inverse is the matrix inverse.  The statements made on this
      model are about solvability, order and bounds; none is about the digits
      of a computed float.
    - Where a statement depends on rounding, the computation is modelled in
      IEEE binary64 (module [F64], on the [SpecFloat] library), operation by
      operation as Python performs it.
    - Exceptions are values of [exn], carried by the [result] monad.
    - PIL images are symbolic: an [Image] records the PIL calls that built it,
      the glyph drawn included, and its size is computed from them; pixel
      values are not modelled. *)

Set Warnings "-notation-overridden,-ambiguous-paths,-redundant-canonical-projection".
From Corelib Require Import SpecFloat.
From Stdlib Require Import String DecimalString.
From HB Require Import structures.
From mathcomp Require Import boot order algebra.
From Stdlib Require Import Ring.
Set Warnings "notation-overridden,ambiguous-paths,redundant-canonical-projection".

Set Implicit Arguments.
Unset Strict Implicit.
Unset Printing Implicit Defensive.

Import GRing.Theory Num.Theory Order.Theory.
Local Open Scope ring_scope.

(** ** Python runtime: exceptions, integer division, [range] *)

Module Py.

Inductive exn : Type :=
| ZeroDivisionError
| IndexError
| ValueError
| LinAlgError.

Inductive result (T : Type) : Type :=
| Ok of T
| Raise of exn.

Arguments Raise {T} e.

Definition bind {T U : Type} (r : result T) (k : T -> result U) : result U :=
  match r with
  | Ok v => k v
  | Raise e => Raise e
  end.

(** A [for] loop that appends one computed item per element and stops at the
    first exception. *)
Fixpoint for_each {T U : Type} (body : T -> result U) (s : seq T)
  : result (seq U) :=
  match s with
  | [::] => Ok [::]
  | x :: s' =>
      bind (body x) (fun y =>
      bind (for_each body s') (fun ys => Ok (y :: ys)))
  end.

(** [a // b] on Python ints: the floor of the quotient. *)
Definition floordiv (a b : int) : result int :=
  if b == 0 then Raise ZeroDivisionError
  else Ok (if 0 < b then (a %/ b)%Z else ((- a) %/ (- b))%Z).

(** [a % b] on Python ints: the remainder of the floor division. *)
Definition mod (a b : int) : result int :=
  bind (floordiv a b) (fun q => Ok (a - b * q)).

(** [a / b] on Python ints (true division), idealised: the exact
    quotient. *)
Definition truediv (a b : int) : result rat :=
  if b == 0 then Raise ZeroDivisionError else Ok (a%:~R / b%:~R).

(** The iteration of a [range] object: [cur], [cur + step], ... while the
    bound is not reached. *)
Fixpoint range_iter (fuel : nat) (cur stop step : int) : seq int :=
  match fuel with
  | 0%N => [::]
  | fuel'.+1 =>
      if (if 0 < step then cur < stop else stop < cur)
      then cur :: range_iter fuel' (cur + step) stop step
      else [::]
  end.

(** [list(range(start, stop, step))]; every iteration moves [cur] by at
    least one towards [stop], so [|stop - start|] iterations are enough. *)
Definition range (start stop step : int) : result (seq int) :=
  if step == 0 then Raise ValueError
  else Ok (range_iter `|stop - start| start stop step).

(** [list(enumerate(s))]. *)
Definition enumerate {T : Type} (s : seq T) : seq (int * T) :=
  zip [seq Posz i | i <- iota 0 (size s)] s.

(** [s[0]]. *)
Definition first {T : Type} (s : seq T) : result T :=
  match s with
  | x :: _ => Ok x
  | [::] => Raise IndexError
  end.

(** [min(a, b)]: [b] replaces [a] only when it is strictly smaller. *)
Definition min (a b : rat) : rat := if b < a then b else a.

(** [str(i)], also written [f"{i}"], for a non-negative [i]. *)
Definition str (i : nat) : string := NilEmpty.string_of_uint (Nat.to_uint i).

End Py.

Import Py.

Notation "x <- e ;; k" := (Py.bind e (fun x => k))
  (at level 100, e at next level, right associativity).

(** ** Python floats *)

(** IEEE binary64, the format of a Python [float]: 53 bits of precision,
    round to nearest even. *)
Module F64.

Definition prec : BinNums.Z := IntDef.Z.of_nat 53.
Definition emax : BinNums.Z := IntDef.Z.of_nat 1024.

Definition Z_of_int (n : int) : BinNums.Z :=
  match n with
  | Posz k => IntDef.Z.of_nat k
  | Negz k => IntDef.Z.opp (IntDef.Z.of_nat k.+1)
  end.

(** [float(n)]: the float nearest to the integer [n]. *)
Definition of_int (n : int) : spec_float :=
  binary_normalize prec emax (Z_of_int n) BinNums.Z0 false.

(** [a / b] on Python ints, for a divisor that is not zero: the float
    nearest to the exact quotient.  For operands below [2 ^ 53], which
    convert to floats without rounding, that is the quotient of the two
    floats. *)
Definition truediv (a b : int) : spec_float :=
  SFdiv prec emax (of_int a) (of_int b).

(** [x + y] on floats. *)
Definition add (x y : spec_float) : spec_float := SFadd prec emax x y.

(** [x == y] on floats. *)
Definition eqb (x y : spec_float) : bool := SFeqb x y.

(** [x < y] and [x <= y] on floats. *)
Definition ltb (x y : spec_float) : bool := SFltb x y.
Definition leb (x y : spec_float) : bool := SFleb x y.

End F64.

(** ** PIL images *)

Definition coeffs : Type := 'cV[rat]_8.

(** An image is the record of the PIL calls that produced it: [Image.new],
    the [rectangle] and [text] calls of an [ImageDraw] on it, [crop],
    [transform], and [paste] with its optional mask. *)
Inductive Image : Type :=
| New (size : nat * nat)
| Rectangle (base : Image) (shape : (nat * nat) * (nat * nat))
| Text (base : Image) (text : string)
| Crop (src : Image) (box : nat * nat * nat * nat)
| Transform (src : Image) (size : nat * nat) (data : coeffs)
| Paste (base tile : Image) (coords : int * int) (mask : option Image).

(** [img.size]: [crop] yields the size of its box, [transform] the requested
    size; drawing and [paste] leave the size of the base image unchanged. *)
Fixpoint size_of (img : Image) : nat * nat :=
  match img with
  | New sz => sz
  | Rectangle base _ => size_of base
  | Text base _ => size_of base
  | Crop _ (lft, upper, rgt, lower) => ((rgt - lft)%N, (lower - upper)%N)
  | Transform _ sz _ => sz
  | Paste base _ _ _ => size_of base
  end.

Definition width (img : Image) : nat := (size_of img).1.
Definition height (img : Image) : nat := (size_of img).2.

(** The [paste] calls made on an image, oldest first: where, and what. *)
Fixpoint pasted (img : Image) : seq ((int * int) * Image) :=
  match img with
  | Paste base tile coords _ => rcons (pasted base) (coords, tile)
  | Rectangle base _ => pasted base
  | Text base _ => pasted base
  | _ => [::]
  end.

(** The masks of these [paste] calls. *)
Fixpoint paste_masks (img : Image) : seq (option Image) :=
  match img with
  | Paste base _ _ mask => rcons (paste_masks base) mask
  | Rectangle base _ => paste_masks base
  | Text base _ => paste_masks base
  | _ => [::]
  end.

(** [Image.new(mode, size, color)]: PIL refuses a negative width or height. *)
Definition Image_new (w h : int) : result Image :=
  if (0 <= w) && (0 <= h) then Ok (New (`|w|%N, `|h|%N))
  else Raise ValueError.

(** ** Module constants *)

Definition TILE_WIDTH : nat := 48.
Definition TILE_HEIGHT : nat := 100.
Definition PADDING_SIZE : nat := 8.

(** ** [find_coeffs] *)

Definition point : Type := (rat * rat)%type.

(** The two rows that one pair of corresponding points appends to [matrix]. *)
Definition coeff_rows (p1 p2 : point) : seq (seq rat) :=
  [:: [:: p1.1; p1.2; 1; 0; 0; 0; - p2.1 * p1.1; - p2.1 * p1.2];
      [:: 0; 0; 0; p1.1; p1.2; 1; - p2.2 * p1.1; - p2.2 * p1.2]].

Definition coeff_matrix_rows (pa pb : seq point) : seq (seq rat) :=
  flatten [seq coeff_rows pp.1 pp.2 | pp <- zip pa pb].

(** [A = numpy.matrix(matrix, dtype=float)], for the 8 rows of 4 pairs. *)
Definition coeff_matrix (pa pb : seq point) : 'M[rat]_8 :=
  \matrix_(i < 8, j < 8) nth 0 (nth [::] (coeff_matrix_rows pa pb) i) j.

(** [B = numpy.array(pb).reshape(8)]. *)
Definition coeff_rhs (pb : seq point) : 'cV[rat]_8 :=
  \col_(i < 8) nth 0 (flatten [seq [:: p.1; p.2] | p <- pb]) i.

(** [numpy.dot(numpy.linalg.inv(A.T * A) * A.T, B)]. *)
Definition normal_solution (A : 'M[rat]_8) (B : 'cV[rat]_8) : 'cV[rat]_8 :=
  invmx (A^T *m A) *m A^T *m B.

(** [find_coeffs(pa, pb)].  [reshape(8)] needs the 4 points of [pb]; [zip]
    stops at the shorter list, so fewer than 4 points in [pa] give a matrix
    [A] of fewer than 8 rows, the rows that [coeff_matrix] leaves at zero:
    [A.T * A] is the same 8x8 matrix, and it is singular.  With no row at
    all the shapes of the products do not fit.  The solver is idealised:
    [numpy.linalg.inv] raises [LinAlgError] on a singular matrix and
    otherwise returns the inverse. *)
Definition find_coeffs (pa pb : seq point) : result coeffs :=
  if size pb != 4%N then Raise ValueError
  else if size pa == 0%N then Raise ValueError
  else
    let A := coeff_matrix pa pb in
    let B := coeff_rhs pb in
    if (A^T *m A) \in unitmx
    then Ok (normal_solution A B)
    else Raise LinAlgError.

(** The [k]-th entry of a coefficient vector. *)
Definition coef (c : coeffs) (k : nat) : rat := c (inord k) 0.

(** ** The two planners *)

(** The planners are modelled twice.  The quadrilaterals are idealised over
    [rat]: [top_x_val], [top_y_val], [bottom_x_val] and [bottom_y_val] are
    the real numbers that the floats [x_val] and [y_val] stand for.  The two
    [x_val], which depend on the angle alone, are also given as Python
    computes them, in binary64: the product of two ints, then a true
    division. *)

Definition top_x_val_float (angle : int) : spec_float :=
  F64.truediv (angle * PADDING_SIZE) 90.

Definition bottom_x_val_float (angle : int) : spec_float :=
  F64.truediv ((90 - angle) * PADDING_SIZE) 90.

Definition top_x_val (angle : int) : rat :=
  (angle * PADDING_SIZE)%:~R / 90.

Definition top_y_val (img : Image) (angle : int) : rat :=
  Py.min ((angle * height img)%:~R / 90) ((height img : int) - 1)%:~R.

Definition find_top_half_coeffs_inputs_for_angle (img : Image) (angle : int)
  : seq point * seq point :=
  let x_val := top_x_val angle in
  let y_val := top_y_val img angle in
  let first_list :=
    [:: (- (x_val + 1), y_val);
        ((width img)%:R + x_val, y_val);
        ((width img)%:R, (height img)%:R);
        (0, (height img)%:R)] in
  let second_list :=
    [:: (0, 0); ((width img)%:R, 0);
        ((width img)%:R, (height img)%:R); (0, (height img)%:R)] in
  (first_list, second_list).

Definition bottom_x_val (angle : int) : rat :=
  ((90 - angle) * PADDING_SIZE)%:~R / 90.

Definition bottom_y_val (img : Image) (angle : int) : rat :=
  Py.min ((angle * height img)%:~R / 90) ((height img : int) - 1)%:~R.

Definition find_bottom_half_coeffs_inputs_for_angle (img : Image) (angle : int)
  : seq point * seq point :=
  let x_val := bottom_x_val angle in
  let y_val := bottom_y_val img angle in
  let first_list :=
    [:: (0, 0);
        ((width img)%:R, 0);
        ((width img)%:R + x_val, y_val);
        (- (x_val + 1), y_val)] in
  let second_list :=
    [:: (0, 0); ((width img)%:R, 0);
        ((width img)%:R, (height img)%:R); (0, (height img)%:R)] in
  (first_list, second_list).

(** ** Halves, glyphs and frames *)

Definition get_top_half (img : Image) : Image :=
  Crop img (0%N, 0%N, width img, (height img %/ 2)%N).

Definition get_bottom_half (img : Image) : Image :=
  Crop img (0%N, (height img %/ 2)%N, width img, height img).

(** [make_sprite] returns [inner_img]: a new image of the tile size with the
    border rectangle and the glyph of [character] drawn on it.  Where the
    glyph lands depends on the metrics of the font; that, the colours, the
    font and its size are pixel content. *)
Definition make_sprite (character : string) : Image :=
  let border_rect_size :=
    ((TILE_WIDTH - PADDING_SIZE)%N, (TILE_HEIGHT - PADDING_SIZE)%N) in
  let inner_image_size := (TILE_WIDTH, TILE_HEIGHT) in
  let border_shape := ((PADDING_SIZE, PADDING_SIZE), border_rect_size) in
  let inner_img := New inner_image_size in
  Text (Rectangle inner_img border_shape) character.

(** The angles that the loop of [make_angles_sprite_set] hands to the
    planners: [_angle + 1] for [_angle] in [range(0, 91, angle_count_by)]. *)
Definition frame_angles (count : int) : result (seq int) :=
  q <- Py.floordiv 90 count ;;
  let angle_count_by := q + 1 in
  angles <- Py.range 0 91 angle_count_by ;;
  Ok [seq _angle + 1 | _angle <- angles].

(** One iteration of the loop, for the planner angle [angle]. *)
Definition angled_sprite (img : Image) (bottom_skew : bool) (angle : int)
  : result Image :=
  let inputs :=
    if bottom_skew then find_bottom_half_coeffs_inputs_for_angle img angle
    else find_top_half_coeffs_inputs_for_angle img angle in
  c <- find_coeffs inputs.1 inputs.2 ;;
  Ok (Transform img (width img, height img) c).

Definition make_angles_sprite_set (img : Image) (count : int)
  (bottom_skew : bool) : result (seq Image) :=
  angles <- frame_angles count ;;
  Py.for_each (angled_sprite img bottom_skew) angles.

(** ** Sheets *)

(** [math.ceil(n / w)]. *)
Definition ceil_div (n w : int) : result int :=
  q <- Py.truediv n w ;; Ok (Num.ceil q).

(** The body of the paste loop of [pack_images_to_sheet]; each tile is
    pasted with itself as the mask. *)
Definition paste_tile (width : int) (sheet : result Image)
  (it : int * Image) : result Image :=
  s <- sheet ;;
  col <- Py.mod it.1 width ;;
  row <- Py.floordiv it.1 width ;;
  let coords := (col * TILE_WIDTH, row * (height it.2 : int)) in
  Ok (Paste s it.2 coords (Some it.2)).

Definition pack_images_to_sheet (images : seq Image) (width_ : int)
  : result Image :=
  row_count <- ceil_div (size images) width_ ;;
  img0 <- Py.first images ;;
  let _img_width : int := width img0 in
  let _img_height : int := height img0 in
  _sheet_img <- Image_new (_img_width * width_) (_img_height * row_count) ;;
  foldl (paste_tile width_) (Ok _sheet_img) (Py.enumerate images).

(** The frames of one digit: bottom set first, then top set, as in the loop
    body of [make_animations_sheets]. *)
Definition digit_frames (i : nat) : result (seq Image * seq Image) :=
  let img := make_sprite (Py.str i) in
  let top_half := get_top_half img in
  let bottom_half := get_bottom_half img in
  bottom_angled_sprites <- make_angles_sprite_set bottom_half 10 true ;;
  top_angled_sprites <- make_angles_sprite_set top_half 10 false ;;
  Ok (bottom_angled_sprites, top_angled_sprites).

(** [make_animations_sheets]: the result is the pair of images saved as
    [bottom_animation_sheet.bmp] and [top_animation_sheet.bmp]; the palette
    conversion keeps the size. *)
Definition make_animations_sheets : result (Image * Image) :=
  per_digit <- Py.for_each digit_frames (iota 0 10) ;;
  let bottom_sprites := flatten [seq fr.1 | fr <- per_digit] in
  let top_sprites := flatten [seq fr.2 | fr <- per_digit] in
  bottom_sheet <- pack_images_to_sheet bottom_sprites 10 ;;
  top_sheet <- pack_images_to_sheet top_sprites 10 ;;
  Ok (bottom_sheet, top_sheet).

(** ** The static sheet and the entry point *)

(** [make_static_sheet]: the result is the image saved as
    [static_sheet.bmp]; the palette conversion keeps the size.  The
    divisions are by the literal 3, and the pastes have no mask. *)
Definition make_static_sheet : result Image :=
  full_sheet_img <-
    Image_new ((TILE_WIDTH : int) * 3) ((TILE_HEIGHT : int) * 4) ;;
  let paste_digit (sheet : Image) (i : nat) : Image :=
    let img := make_sprite (Py.str i) in
    let coords :=
      ((Posz i %% 3)%Z * TILE_WIDTH, (Posz i %/ 3)%Z * TILE_HEIGHT) in
    Paste sheet img coords None in
  let full_sheet_img := foldl paste_digit full_sheet_img (iota 0 10) in
  let img := make_sprite ":" in
  let coords := ((10 %% 3)%Z * TILE_WIDTH, (10 %/ 3)%Z * TILE_HEIGHT) in
  Ok (Paste full_sheet_img img coords None).

(** [main]: the three sheets that a run writes.  The options [width],
    [height], [padding] and [animation_frames] are accepted and not used;
    the colours, the font and its size are pixel content. *)
Definition main (width_ height_ padding animation_frames : int)
  : result (Image * (Image * Image)) :=
  static_sheet <- make_static_sheet ;;
  animation_sheets <- make_animations_sheets ;;
  Ok (static_sheet, animation_sheets).

(** ** Vocabulary of the statements *)

(** Where the loop of [pack_images_to_sheet] pastes the tile [it.2] of index
    [it.1], for a positive column count. *)
Definition tile_coords (w : int) (it : int * Image) : int * int :=
  ((it.1 %% w)%Z * TILE_WIDTH, (it.1 %/ w)%Z * (height it.2 : int)).

(** Twice the signed area of the triangle [p q r]; zero when the three
    points are on one line. *)
Definition cross (p q r : point) : rat :=
  (q.1 - p.1) * (r.2 - p.2) - (q.2 - p.2) * (r.1 - p.1).

(** No three of the points of [s] are on one line. *)
Definition no_three_collinear (s : seq point) : bool :=
  let idx := iota 0 (size s) in
  all (fun i => all (fun j => all (fun k =>
    ((i < j) && (j < k))%N ==>
      (cross (nth (0, 0) s i) (nth (0, 0) s j) (nth (0, 0) s k) != 0))
    idx) idx) idx.

(** Twice the signed area of the polygon [s] (shoelace formula). *)
Definition shoelace (s : seq point) : rat :=
  foldr +%R 0
    [seq pq.1.1 * pq.2.2 - pq.2.1 * pq.1.2 | pq <- zip s (rot 1 s)].

Definition area (s : seq point) : rat := `|shoelace s| / 2.

(** The quadrilateral pair that [make_angles_sprite_set] hands to
    [find_coeffs]. *)
Definition planner_inputs (img : Image) (bottom_skew : bool) (angle : int)
  : seq point * seq point :=
  if bottom_skew then find_bottom_half_coeffs_inputs_for_angle img angle
  else find_top_half_coeffs_inputs_for_angle img angle.

(** The frame that one iteration appends when the solver succeeds. *)
Definition solved_frame (img : Image) (bottom_skew : bool) (angle : int)
  : Image :=
  let inputs := planner_inputs img bottom_skew angle in
  Transform img (width img, height img)
    (normal_solution (coeff_matrix inputs.1 inputs.2) (coeff_rhs inputs.2)).

(** The least height for which the planner of each mode yields a solvable
    quadrilateral pair. *)
Definition min_height (bottom_skew : bool) : nat :=
  if bottom_skew then 2 else 1.

(** The vector with a one in position [j] and zeros elsewhere. *)
Definition unit_vector (j : nat) : coeffs :=
  \col_(i < 8) (if (i : nat) == j then 1 else 0).

Definition well_posed (inputs : seq point * seq point) : Prop :=
  [/\ 0 < area inputs.1, no_three_collinear inputs.1 &
      exists c, find_coeffs inputs.1 inputs.2 = Ok c].

Definition no_paste : (int * int) * Image := ((0, 0), New (0%N, 0%N)).

(** The frames of the digit [i]. *)
Definition digit_frame_lists (i : nat) : seq Image * seq Image :=
  let angles : seq int := [:: 1; 11; 21; 31; 41; 51; 61; 71; 81; 91] in
  ([seq solved_frame (get_bottom_half (make_sprite (Py.str i))) true x
    | x <- angles],
   [seq solved_frame (get_top_half (make_sprite (Py.str i))) false x
    | x <- angles]).

Definition bottom_sprites : seq Image :=
  flatten [seq fr.1 | fr <- [seq digit_frame_lists i | i <- iota 0 10]].

Definition top_sprites : seq Image :=
  flatten [seq fr.2 | fr <- [seq digit_frame_lists i | i <- iota 0 10]].

(** The eleven glyphs of the static sheet, in pasting order, and their
    sprites. *)
Definition glyphs : seq string :=
  [:: "0"; "1"; "2"; "3"; "4"; "5"; "6"; "7"; "8"; "9"; ":"]%string.

Definition glyph_sprites : seq Image := [seq make_sprite c | c <- glyphs].

(** The cell of the grid with [columns] columns and cells of [h] rows of
    pixels that holds the tile of index [i]. *)
Definition grid_cell (columns h i : nat) : int * int :=
  (Posz (i %% columns) * TILE_WIDTH, Posz (i %/ columns) * h).

(** * Properties *)

(** ** The [result] monad and Python integer division *)

Lemma floordiv_pos (a b : int) : 0 < b -> Py.floordiv a b = Ok (a %/ b)%Z.
Proof. by move=> b0; rewrite /Py.floordiv gt_eqF // b0. Qed.

Lemma mod_pos (a b : int) : 0 < b -> Py.mod a b = Ok (a %% b)%Z.
Proof.
move=> b0; rewrite /Py.mod floordiv_pos //=; congr Ok.
by rewrite /modz mulrC.
Qed.

Lemma for_each_ok {T U : Type} (body : T -> result U) (f : T -> U)
    (s : seq T) :
  (forall x, List.In x s -> body x = Ok (f x)) ->
  Py.for_each body s = Ok [seq f x | x <- s].
Proof.
elim: s => [|x s IH] //= H.
have -> : body x = Ok (f x) by apply: H; left.
have -> //= : Py.for_each body s = Ok [seq f x | x <- s].
by apply: IH => y Hy; apply: H; right.
Qed.

(** ** The sheet packer *)

Lemma paste_loop (w : int) (its : seq (int * Image)) (s : Image) :
  0 < w ->
  exists2 s', foldl (paste_tile w) (Ok s) its = Ok s' &
    size_of s' = size_of s /\
    pasted s' = pasted s ++ [seq (tile_coords w it, it.2) | it <- its].
Proof.
move=> w0; elim: its s => [|it its IH] s /=.
  by exists s => //; rewrite cats0.
rewrite /paste_tile /= mod_pos // floordiv_pos //=.
have [s' -> [Hsz Hp]] := IH (Paste s it.2 (tile_coords w it) (Some it.2)).
exists s' => //; split; first by rewrite Hsz.
by rewrite Hp /= -cats1 -catA.
Qed.

Lemma ceil_div_nonneg (n : nat) (w : int) :
  0 < w -> exists2 r, ceil_div n w = Ok r & 0 <= r.
Proof.
move=> w0; rewrite /ceil_div /Py.truediv gt_eqF //=.
exists (Num.ceil (n%:~R / w%:~R : rat)) => //.
rewrite ceil_ge0; apply: (@lt_le_trans _ _ 0) => //.
by rewrite divr_ge0 // ler0z // ltW.
Qed.

(** What [pack_images_to_sheet] does on a list whose first tile is [t], for
    a positive column count. *)
Lemma pack_images_to_sheet_first (images : seq Image) (t : Image) (w : int) :
  Py.first images = Ok t -> 0 < w ->
  exists sheet row_count,
    [/\ pack_images_to_sheet images w = Ok sheet,
        ceil_div (size images) w = Ok row_count,
        (width sheet : int) = (width t : int) * w,
        (height sheet : int) = (height t : int) * row_count &
        pasted sheet =
          [seq (tile_coords w it, it.2) | it <- Py.enumerate images]].
Proof.
move=> Ht w0; have [r Hr r0] := ceil_div_nonneg (size images) w0.
have W0 : 0 <= (width t : int) * w by rewrite mulr_ge0 // ltW.
have H0 : 0 <= (height t : int) * r by rewrite mulr_ge0.
rewrite /pack_images_to_sheet Hr Ht /= /Image_new W0 H0 /=.
have [s' -> [Hsz Hp]] := paste_loop (Py.enumerate images)
  (New (absz ((width t : int) * w), absz ((height t : int) * r))) w0.
exists s', r; split => //.
- by rewrite /width Hsz /= gez0_abs.
- by rewrite /height Hsz /= gez0_abs.
Qed.

Lemma pack_images_to_sheet_ok (t : Image) (ts : seq Image) (w : int) :
  0 < w ->
  exists sheet row_count,
    [/\ pack_images_to_sheet (t :: ts) w = Ok sheet,
        ceil_div (size (t :: ts)) w = Ok row_count,
        (width sheet : int) = (width t : int) * w,
        (height sheet : int) = (height t : int) * row_count &
        pasted sheet =
          [seq (tile_coords w it, it.2) | it <- Py.enumerate (t :: ts)]].
Proof. exact: pack_images_to_sheet_first. Qed.

(** ** Linear algebra of the coefficient system *)

Lemma unitmx_kernel (A : 'M[rat]_8) :
  (forall v : 'cV[rat]_8, A *m v = 0 -> v = 0) -> A \in unitmx.
Proof.
move=> Hker; rewrite -unitmx_tr -row_free_unit -kermx_eq0.
apply/eqP/row_matrixP => i; rewrite row0.
have H : A *m (row i (kermx A^T))^T = 0.
  by rewrite -{1}[A]trmxK -trmx_mul -row_mul mulmx_ker row0 trmx0.
by rewrite -[LHS]trmxK (Hker _ H) trmx0.
Qed.

(** Solving with the normal equations is solving the square system. *)
Lemma normal_equations_solve (A : 'M[rat]_8) (B : 'cV[rat]_8) :
  A \in unitmx ->
  (A^T *m A \in unitmx) /\ A *m normal_solution A B = B.
Proof.
rewrite /normal_solution => uA; have uN : A^T *m A \in unitmx by rewrite unitmx_mul unitmx_tr uA.
split=> //.
have L : (invmx (A^T *m A) *m A^T) *m A = 1%:M by rewrite -mulmxA mulVmx.
by rewrite !mulmxA -[A *m _ *m _]mulmxA (mulmx1C L) mul1mx.
Qed.

Lemma sum8 (f : 'I_8 -> rat) :
  \sum_(j < 8) f j =
  f (inord 0) + f (inord 1) + f (inord 2) + f (inord 3) +
  f (inord 4) + f (inord 5) + f (inord 6) + f (inord 7).
Proof.
do 8 rewrite big_ord_recr /=; rewrite big_ord0 add0r.
by do !congr (_ + _); congr f; apply: val_inj; rewrite /= inordK.
Qed.

Lemma rat_ring_theory :
  @ring_theory rat zeroq oneq addq mulq (fun x y => addq x (oppq y)) oppq eq.
Proof.
split => //.
- exact: (@add0r rat).
- exact: (@addrC rat).
- exact: (@addrA rat).
- exact: (@mul1r rat).
- exact: (@mulrC rat).
- exact: (@mulrA rat).
- exact: (@mulrDl rat).
- exact: (@subrr rat).
Qed.

Add Ring rat_ring : rat_ring_theory.

(** [rat_ring] proves polynomial identities over [rat]: it rewrites the goal
    with the operations of [rat] themselves, numerals becoming sums of ones,
    and calls [ring]. *)
Ltac natsum a n :=
  lazymatch n with
  | O => constr:(zeroq)
  | S O => constr:(a)
  | S ?m => let r := natsum a m in constr:(addq a r)
  end.

Ltac ratify t :=
  lazymatch t with
  | @GRing.add _ ?a ?b =>
      let a' := ratify a in let b' := ratify b in constr:(addq a' b')
  | @GRing.mul _ ?a ?b =>
      let a' := ratify a in let b' := ratify b in constr:(mulq a' b')
  | @GRing.opp _ ?a => let a' := ratify a in constr:(oppq a')
  | @GRing.natmul _ ?a ?n =>
      let a' := ratify a in
      let n' := eval cbv in n in natsum a' n'
  | @GRing.zero _ => constr:(zeroq)
  | @GRing.one _ => constr:(oneq)
  | _ => t
  end.

Ltac rat_ring :=
  match goal with
  | |- @eq _ ?a ?b =>
      let a' := ratify a in
      let b' := ratify b in
      change (@eq rat a' b'); ring
  end.

Lemma coeff_matrix_rowE (pa pb : seq point) (v : 'cV[rat]_8) (k : nat) :
  size pa = 4%N -> size pb = 4%N -> (k < 4)%N ->
  let p := nth (0, 0) pa k in
  let q := nth (0, 0) pb k in
  (coeff_matrix pa pb *m v) (inord k.*2) 0 =
    p.1 * coef v 0 + p.2 * coef v 1 + coef v 2
    - q.1 * (coef v 6 * p.1 + coef v 7 * p.2) /\
  (coeff_matrix pa pb *m v) (inord k.*2.+1) 0 =
    p.1 * coef v 3 + p.2 * coef v 4 + coef v 5
    - q.2 * (coef v 6 * p.1 + coef v 7 * p.2).
Proof.
case: pa => [|p0 [|p1 [|p2 [|p3 [|? ?]]]]] //= _.
case: pb => [|q0 [|q1 [|q2 [|q3 [|? ?]]]]] //= _.
case: k => [|[|[|[|k]]]] //= _.
all: split; rewrite mxE sum8 !mxE !inordK //= /coef.
all: rat_ring.
Qed.

Lemma cV8_rows (u v : 'cV[rat]_8) :
  (forall k, (k < 4)%N ->
     u (inord k.*2) 0 = v (inord k.*2) 0 /\
     u (inord k.*2.+1) 0 = v (inord k.*2.+1) 0) ->
  u = v.
Proof.
move=> H; apply/matrixP => i j; rewrite ord1 -[i]inord_val.
case: i => [[|[|[|[|[|[|[|[|i]]]]]]]] Hi] //=.
- by case: (H 0%N isT).
- by case: (H 0%N isT).
- by case: (H 1%N isT).
- by case: (H 1%N isT).
- by case: (H 2%N isT).
- by case: (H 2%N isT).
- by case: (H 3%N isT).
- by case: (H 3%N isT).
Qed.

Lemma cV8_coef0 (v : 'cV[rat]_8) :
  [/\ coef v 0 = 0, coef v 1 = 0, coef v 2 = 0, coef v 3 = 0 &
   [/\ coef v 4 = 0, coef v 5 = 0, coef v 6 = 0 & coef v 7 = 0]] -> v = 0.
Proof.
case=> v0 v1 v2 v3 [v4 v5 v6 v7]; apply: cV8_rows => k.
by case: k => [|[|[|[|k]]]] //= _; rewrite !mxE.
Qed.

Section TopKernel.
Variables a b y w h : rat.
Let pa : seq point := [:: (a, y); (b, y); (w, h); (0, h)].
Let pb : seq point := [:: (0, 0); (w, 0); (w, h); (0, h)].
Hypothesis ba : b - a != 0.
Hypothesis w0 : w != 0.
Hypothesis h0 : h != 0.
Hypothesis hy : h - y != 0.
Hypothesis hw : h * (b - a) - w * y != 0.

Lemma top_quad_kernel (v : 'cV[rat]_8) :
  coeff_matrix pa pb *m v = 0 -> v = 0.
Proof.
move=> H.
have E k (Hk : (k < 4)%N) :=
  @coeff_matrix_rowE pa pb v k (erefl _) (erefl _) Hk.
have [] := E 0%N isT; have [] := E 1%N isT; have [] := E 2%N isT; have [] := E 3%N isT.
rewrite H !mxE /=.
set v0 := coef v 0; set v1 := coef v 1; set v2 := coef v 2; set v3 := coef v 3.
set v4 := coef v 4; set v5 := coef v 5; set v6 := coef v 6; set v7 := coef v 7.
move=> R6 R7 R4 R5 R2 R3 R0 R1.
move: R0 R1 R2 R3 R4 R5 R6 R7.
set e0 := (X in 0 = X) => R0; set e1 := (X in 0 = X) => R1.
set e2 := (X in 0 = X) => R2; set e3 := (X in 0 = X) => R3.
set e4 := (X in 0 = X) => R4; set e5 := (X in 0 = X) => R5.
set e6 := (X in 0 = X) => R6; set e7 := (X in 0 = X) => R7.
have Z3 : v3 = 0.
  apply/eqP; rewrite -(mulIr_eq0 _ (mulIf ba)); apply/eqP.
  have -> : v3 * (b - a) = e3 - e1 by rewrite /e3 /e1; rat_ring.
  by rewrite -R3 -R1; rat_ring.
have Z6 : v6 = 0.
  apply/eqP; rewrite -(mulIr_eq0 _ (mulIf (mulf_neq0 h0 w0))); apply/eqP.
  have -> : v6 * (h * w) = w * v3 - (e5 - e7) by rewrite /e5 /e7; rat_ring.
  by rewrite -R5 -R7 Z3; rat_ring.
have D0 : v0 - h * v7 = 0.
  apply/eqP; rewrite -(mulIr_eq0 _ (mulIf w0)); apply/eqP.
  have -> : (v0 - h * v7) * w = (e4 - e6) + w * w * v6
    by rewrite /e4 /e6; rat_ring.
  by rewrite -R4 -R6 Z6; rat_ring.
have Z7 : v7 = 0.
  apply/eqP; rewrite -(mulIr_eq0 _ (mulIf hw)); apply/eqP.
  have -> : v7 * (h * (b - a) - w * y) =
      (e2 - e0) - (b - a) * (v0 - h * v7) + w * b * v6
    by rewrite /e2 /e0; rat_ring.
  by rewrite -R2 -R0 D0 Z6; rat_ring.
have Z0 : v0 = 0.
  have -> : v0 = (v0 - h * v7) + h * v7 by rat_ring.
  by rewrite D0 Z7 mulr0 addr0.
have Z1 : v1 = 0.
  apply/eqP; rewrite -(mulIr_eq0 _ (mulIf hy)); apply/eqP.
  have -> : v1 * (h - y) = e6 - e0 + a * v0 by rewrite /e6 /e0; rat_ring.
  by rewrite -R6 -R0 Z0; rat_ring.
have Z2 : v2 = 0.
  have -> : v2 = e6 - h * v1 by rewrite /e6; rat_ring.
  by rewrite -R6 Z1; rat_ring.
have Z4 : v4 = 0.
  apply/eqP; rewrite -(mulIr_eq0 _ (mulIf hy)); apply/eqP.
  have -> : v4 * (h - y) = e7 - e1 + a * v3 + h * h * v7
    by rewrite /e7 /e1; rat_ring.
  by rewrite -R7 -R1 Z3 Z7; rat_ring.
have Z5 : v5 = 0.
  have -> : v5 = e1 - a * v3 - y * v4 by rewrite /e1; rat_ring.
  by rewrite -R1 Z3 Z4; rat_ring.
exact: cV8_coef0.
Qed.

End TopKernel.

Section BottomKernel.
Variables a b y w h : rat.
Let pa : seq point := [:: (0, 0); (w, 0); (b, y); (a, y)].
Let pb : seq point := [:: (0, 0); (w, 0); (w, h); (0, h)].
Hypothesis ba : b - a != 0.
Hypothesis w0 : w != 0.
Hypothesis h0 : h != 0.
Hypothesis y0 : y != 0.

Lemma bottom_quad_kernel (v : 'cV[rat]_8) :
  coeff_matrix pa pb *m v = 0 -> v = 0.
Proof.
move=> H.
have E k (Hk : (k < 4)%N) :=
  @coeff_matrix_rowE pa pb v k (erefl _) (erefl _) Hk.
have [] := E 0%N isT; have [] := E 1%N isT.
have [] := E 2%N isT; have [] := E 3%N isT.
rewrite H !mxE /=.
set v0 := coef v 0; set v1 := coef v 1; set v2 := coef v 2; set v3 := coef v 3.
set v4 := coef v 4; set v5 := coef v 5; set v6 := coef v 6; set v7 := coef v 7.
move=> R6 R7 R4 R5 R2 R3 R0 R1.
move: R0 R1 R2 R3 R4 R5 R6 R7.
set e0 := (X in 0 = X) => R0; set e1 := (X in 0 = X) => R1.
set e2 := (X in 0 = X) => R2; set e3 := (X in 0 = X) => R3.
set e4 := (X in 0 = X) => R4; set e5 := (X in 0 = X) => R5.
set e6 := (X in 0 = X) => R6; set e7 := (X in 0 = X) => R7.
have Z2 : v2 = 0.
  have -> : v2 = e0 by rewrite /e0; rat_ring.
  by rewrite -R0.
have Z5 : v5 = 0.
  have -> : v5 = e1 by rewrite /e1; rat_ring.
  by rewrite -R1.
have Z3 : v3 = 0.
  apply/eqP; rewrite -(mulIr_eq0 _ (mulIf w0)); apply/eqP.
  have -> : v3 * w = e3 - v5 by rewrite /e3; rat_ring.
  by rewrite -R3 Z5; rat_ring.
have Z6 : v6 = 0.
  apply/eqP; rewrite -(mulIr_eq0 _ (mulIf (mulf_neq0 h0 ba))); apply/eqP.
  have -> : v6 * (h * (b - a)) = (b - a) * v3 - (e5 - e7)
    by rewrite /e5 /e7; rat_ring.
  by rewrite -R5 -R7 Z3; rat_ring.
have Z0 : v0 = 0.
  apply/eqP; rewrite -(mulIr_eq0 _ (mulIf w0)); apply/eqP.
  have -> : v0 * w = e2 - v2 + w * w * v6 by rewrite /e2; rat_ring.
  by rewrite -R2 Z2 Z6; rat_ring.
have Z1 : v1 = 0.
  apply/eqP; rewrite -(mulIr_eq0 _ (mulIf y0)); apply/eqP.
  have -> : v1 * y = e6 - a * v0 - v2 by rewrite /e6; rat_ring.
  by rewrite -R6 Z0 Z2; rat_ring.
have Z7 : v7 = 0.
  apply/eqP; rewrite -(mulIr_eq0 _ (mulIf (mulf_neq0 w0 y0))); apply/eqP.
  have -> : v7 * (w * y) = b * v0 + y * v1 + v2 - w * b * v6 - e4
    by rewrite /e4; rat_ring.
  by rewrite -R4 Z0 Z1 Z2 Z6; rat_ring.
have Z4 : v4 = 0.
  apply/eqP; rewrite -(mulIr_eq0 _ (mulIf y0)); apply/eqP.
  have -> : v4 * y = e7 - a * v3 - v5 + h * (v6 * a + v7 * y)
    by rewrite /e7; rat_ring.
  by rewrite -R7 Z3 Z5 Z6 Z7; rat_ring.
exact: cV8_coef0.
Qed.

End BottomKernel.

(** ** Bounds on the planners' displacements *)

Lemma min_le_r (a b : rat) : Py.min a b <= b.
Proof. by rewrite /Py.min; case: ltP. Qed.

Lemma min_le_l (a b : rat) : Py.min a b <= a.
Proof. by rewrite /Py.min; case: ltP => // /ltW. Qed.

Lemma min_gt0 (a b : rat) : 0 < a -> 0 < b -> 0 < Py.min a b.
Proof. by rewrite /Py.min; case: ifP. Qed.


Lemma height_pred (img : Image) :
  ((height img : int) - 1)%:~R = (height img)%:R - 1 :> rat.
Proof. by rewrite rmorphB /= -pmulrn. Qed.

Lemma ratio_gt0 : 0 < 8 / 90 :> rat.
Proof. by apply: divr_gt0; rewrite ltr0n. Qed.

Lemma ninety_gt0 : 0 < 90 :> rat.
Proof. by rewrite ltr0n. Qed.

Lemma top_x_valE (angle : int) : top_x_val angle = angle%:~R * (8 / 90).
Proof. by rewrite /top_x_val rmorphM /= -pmulrn mulrA. Qed.

Lemma bottom_x_valE (angle : int) :
  bottom_x_val angle = (90 - angle%:~R) * (8 / 90).
Proof. by rewrite /bottom_x_val rmorphM rmorphB /= -!pmulrn mulrA. Qed.

Lemma top_y_valE (img : Image) (angle : int) :
  top_y_val img angle =
  Py.min (angle%:~R * (height img)%:R / 90) ((height img)%:R - 1).
Proof. by rewrite /top_y_val rmorphM /= -pmulrn height_pred. Qed.


Lemma top_x_val_ge0 (angle : int) : 0 <= angle -> 0 <= top_x_val angle.
Proof.
move=> a0; rewrite top_x_valE; apply: mulr_ge0; last exact: ltW ratio_gt0.
by rewrite ler0z.
Qed.

Lemma top_y_val_lt (img : Image) (angle : int) :
  top_y_val img angle < (height img)%:R.
Proof.
rewrite top_y_valE; apply: (le_lt_trans (min_le_r _ _)).
by rewrite ltrBlDr ltrDl ltr01.
Qed.

Lemma top_inputs_unit (img : Image) (angle : int) :
  (0 < width img)%N -> (0 < height img)%N -> 0 <= angle ->
  coeff_matrix (find_top_half_coeffs_inputs_for_angle img angle).1
               (find_top_half_coeffs_inputs_for_angle img angle).2
    \in unitmx.
Proof.
move=> W0 H0 a0; apply: unitmx_kernel => v.
have x0 := top_x_val_ge0 a0.
have yh := top_y_val_lt img angle.
have w0 : 0 < (width img)%:R :> rat by rewrite ltr0n.
have h0 : 0 < (height img)%:R :> rat by rewrite ltr0n.
have bw : (width img)%:R <=
    (width img)%:R + top_x_val angle - - (top_x_val angle + 1).
  rewrite opprK -addrA lerDl; apply: addr_ge0 => //.
  by apply: addr_ge0 => //; exact: ler01.
apply: top_quad_kernel.
- by rewrite gt_eqF // (lt_le_trans w0 bw).
- by rewrite gt_eqF.
- by rewrite gt_eqF.
- by rewrite gt_eqF // subr_gt0.
- rewrite gt_eqF // subr_gt0.
  apply: (@lt_le_trans _ _ ((width img)%:R * (height img)%:R)).
    by rewrite ltr_pM2l.
  by rewrite mulrC ler_pM2l.
Qed.

Lemma twice_ratio_lt1 : 8 / 90 + 8 / 90 < 1 :> rat.
Proof. by vm_compute. Qed.

Lemma bottom_x_val_ge (angle : int) :
  angle <= 91 -> - (8 / 90) <= bottom_x_val angle.
Proof.
move=> a91; rewrite bottom_x_valE -mulN1r (ler_pM2r ratio_gt0).
rewrite lerBrDr addrC lerBlDr.
have -> : 90 + 1 = (91%:Z)%:~R :> rat by apply/eqP; vm_compute.
by rewrite ler_int.
Qed.

Lemma y_val_gt0 (img : Image) (angle : int) :
  (1 < height img)%N -> 0 < angle -> 0 < top_y_val img angle.
Proof.
move=> H1 a0; rewrite top_y_valE; apply: min_gt0.
  apply: divr_gt0; last exact: ninety_gt0.
  by apply: mulr_gt0; rewrite ?ltr0z // ltr0n ltnW.
by rewrite subr_gt0 ltr1n.
Qed.

Lemma bottom_inputs_unit (img : Image) (angle : int) :
  (0 < width img)%N -> (1 < height img)%N -> 0 < angle -> angle <= 91 ->
  coeff_matrix (find_bottom_half_coeffs_inputs_for_angle img angle).1
               (find_bottom_half_coeffs_inputs_for_angle img angle).2
    \in unitmx.
Proof.
move=> W0 H1 a0 a91; apply: unitmx_kernel => v.
have xl := bottom_x_val_ge a91.
have y0 := y_val_gt0 H1 a0.
have w0 : 0 < (width img)%:R :> rat by rewrite ltr0n.
have h0 : 0 < (height img)%:R :> rat by rewrite ltr0n ltnW.
have ba : 0 < (width img)%:R + bottom_x_val angle
              - - (bottom_x_val angle + 1).
  rewrite opprK -addrA; apply: addr_gt0; first exact: w0.
  rewrite addrA.
  apply: (@lt_le_trans _ _ (- (8 / 90) + - (8 / 90) + 1)).
    by rewrite -opprD addrC subr_gt0 twice_ratio_lt1.
  by rewrite lerD2r; apply: lerD.
apply: bottom_quad_kernel.
- exact: lt0r_neq0 ba.
- exact: lt0r_neq0 w0.
- exact: lt0r_neq0 h0.
- exact: lt0r_neq0 y0.
Qed.

(** ** [find_coeffs] and the shapes of the planners' quadrilaterals *)

Lemma find_coeffs_unit (pa pb : seq point) :
  size pa = 4%N -> size pb = 4%N -> coeff_matrix pa pb \in unitmx ->
  find_coeffs pa pb = Ok (normal_solution (coeff_matrix pa pb) (coeff_rhs pb))
  /\ coeff_matrix pa pb *m normal_solution (coeff_matrix pa pb) (coeff_rhs pb)
     = coeff_rhs pb.
Proof.
move=> sa sb uA; have [uN Hc] := normal_equations_solve (coeff_rhs pb) uA.
by rewrite /find_coeffs sa sb /= uN.
Qed.

Lemma find_coeffs_singular (pa pb : seq point) :
  size pa = 4%N -> size pb = 4%N -> coeff_matrix pa pb \notin unitmx ->
  find_coeffs pa pb = Raise LinAlgError.
Proof.
move=> sa sb nuA; rewrite /find_coeffs sa sb /=.
by rewrite unitmx_mul unitmx_tr (negbTE nuA).
Qed.

Lemma coef_unit_vector (j k : nat) :
  (k < 8)%N -> coef (unit_vector j) k = if k == j then 1 else 0.
Proof. by move=> Hk; rewrite /coef mxE inordK. Qed.

Lemma kernel_singular (A : 'M[rat]_8) (j : nat) :
  (j < 8)%N -> A *m unit_vector j = 0 -> A \notin unitmx.
Proof.
move=> Hj HA; apply/negP => uA.
have : unit_vector j = 0 by rewrite -[unit_vector j](mulKmx uA) HA mulmx0.
move/(congr1 (fun v : coeffs => coef v j)).
rewrite coef_unit_vector // eqxx /coef mxE => /eqP.
by rewrite oner_eq0.
Qed.

Lemma size_coeff_matrix_rows (pa pb : seq point) :
  size (coeff_matrix_rows pa pb) = (minn (size pa) (size pb)).*2.
Proof.
rewrite /coeff_matrix_rows size_flatten /shape -map_comp -size_zip.
elim: (zip pa pb) => [|pp s IH] //=.
by rewrite IH.
Qed.

Lemma short_source_singular (pa pb : seq point) :
  (size pa < 4)%N -> coeff_matrix pa pb \notin unitmx.
Proof.
move=> lt4; rewrite -unitmx_tr.
apply: (@kernel_singular _ 7) => //.
apply/matrixP => i j; rewrite !mxE big1 // => k _.
rewrite !mxE; case: eqP => [k7|_]; last by rewrite mulr0.
rewrite k7 [nth [::] _ _]nth_default ?nth_nil ?mul0r //.
rewrite size_coeff_matrix_rows.
apply: (@leq_trans (size pa).*2); first by rewrite leq_double geq_minl.
by rewrite -[7%N]/(3.*2.+1) ltnW // ltnS leq_double -ltnS.
Qed.

(** With fewer than 4 source points the normal matrix is singular: the
    solver raises before the shapes of the last product are compared. *)
Lemma find_coeffs_short_source (pa pb : seq point) :
  (0 < size pa < 4)%N -> size pb = 4%N ->
  find_coeffs pa pb = Raise LinAlgError.
Proof.
case/andP=> pa0 pa4 sb; rewrite /find_coeffs sb /= eqn0Ngt pa0 /=.
by rewrite unitmx_mul unitmx_tr (negbTE (short_source_singular pb pa4)).
Qed.

Lemma no_three_collinear4 (p0 p1 p2 p3 : point) :
  no_three_collinear [:: p0; p1; p2; p3] =
  [&& cross p0 p1 p2 != 0, cross p0 p1 p3 != 0,
      cross p0 p2 p3 != 0 & cross p1 p2 p3 != 0].
Proof. by rewrite /no_three_collinear /= !andbT -!andbA. Qed.

Lemma shoelace4 (p0 p1 p2 p3 : point) :
  shoelace [:: p0; p1; p2; p3] =
  (p0.1 * p1.2 - p1.1 * p0.2) + (p1.1 * p2.2 - p2.1 * p1.2) +
  (p2.1 * p3.2 - p3.1 * p2.2) + (p3.1 * p0.2 - p0.1 * p3.2).
Proof. by rewrite /shoelace /= addr0 !addrA. Qed.

Section TopShape.
Variables a b y w h : rat.
Let pa : seq point := [:: (a, y); (b, y); (w, h); (0, h)].
Hypothesis ba : 0 < b - a.
Hypothesis w0 : 0 < w.
Hypothesis hy : 0 < h - y.

Lemma top_shape_area : 0 < area pa.
Proof.
rewrite /area divr_gt0 ?ltr0n // normr_gt0 shoelace4 /=.
have -> : a * y - b * y + (b * h - w * y) + (w * h - 0 * h) + (0 * y - a * h)
          = (h - y) * ((b - a) + w) by rat_ring.
by apply: lt0r_neq0; apply: mulr_gt0 => //; apply: addr_gt0.
Qed.

Lemma top_shape_no_three_collinear : no_three_collinear pa.
Proof.
rewrite no_three_collinear4 /cross /=.
have -> : (b - a) * (h - y) - (y - y) * (w - a) = (b - a) * (h - y)
  by rat_ring.
have -> : (b - a) * (h - y) - (y - y) * (0 - a) = (b - a) * (h - y)
  by rat_ring.
have -> : (w - a) * (h - y) - (h - y) * (0 - a) = (h - y) * w by rat_ring.
have -> : (w - b) * (h - y) - (h - y) * (0 - b) = (h - y) * w by rat_ring.
by rewrite !mulf_neq0 // lt0r_neq0.
Qed.

End TopShape.

Section BottomShape.
Variables a b y w : rat.
Let pa : seq point := [:: (0, 0); (w, 0); (b, y); (a, y)].
Hypothesis ba : 0 < b - a.
Hypothesis w0 : 0 < w.
Hypothesis y0 : 0 < y.

Lemma bottom_shape_area : 0 < area pa.
Proof.
rewrite /area divr_gt0 ?ltr0n // normr_gt0 shoelace4 /=.
have -> : 0 * 0 - w * 0 + (w * y - b * 0) + (b * y - a * y) + (a * 0 - 0 * y)
          = y * (w + (b - a)) by rat_ring.
by apply: lt0r_neq0; apply: mulr_gt0 => //; apply: addr_gt0.
Qed.

Lemma bottom_shape_no_three_collinear : no_three_collinear pa.
Proof.
rewrite no_three_collinear4 /cross /=.
have -> : (w - 0) * (y - 0) - (0 - 0) * (b - 0) = w * y by rat_ring.
have -> : (w - 0) * (y - 0) - (0 - 0) * (a - 0) = w * y by rat_ring.
have -> : (b - 0) * (y - 0) - (y - 0) * (a - 0) = y * (b - a) by rat_ring.
have -> : (b - w) * (y - 0) - (y - 0) * (a - w) = y * (b - a) by rat_ring.
by rewrite !mulf_neq0 // lt0r_neq0.
Qed.

End BottomShape.

(** ** The frame generator *)

Lemma int_ring_theory :
  @ring_theory int (Posz 0) (Posz 1) intZmod.addz intRing.mulz
    (fun x y => intZmod.addz x (intZmod.oppz y)) intZmod.oppz eq.
Proof.
split => //.
- exact: (@add0r int).
- exact: (@addrC int).
- exact: (@addrA int).
- exact: (@mul1r int).
- exact: (@mulrC int).
- exact: (@mulrA int).
- exact: (@mulrDl int).
- exact: (@subrr int).
Qed.

Add Ring int_ring : int_ring_theory.

Ltac intify t :=
  lazymatch t with
  | @GRing.add _ ?a ?b =>
      let a' := intify a in let b' := intify b in
      constr:(intZmod.addz a' b')
  | @GRing.mul _ ?a ?b =>
      let a' := intify a in let b' := intify b in
      constr:(intRing.mulz a' b')
  | @GRing.opp _ ?a => let a' := intify a in constr:(intZmod.oppz a')
  | @GRing.zero _ => constr:(Posz 0)
  | @GRing.one _ => constr:(Posz 1)
  | _ => t
  end.

Ltac int_ring :=
  match goal with
  | |- @eq _ ?a ?b =>
      let a' := intify a in
      let b' := intify b in
      change (@eq int a' b'); ring
  end.


Lemma range_iter_nil (fuel : nat) (cur stop step : int) :
  0 < step -> stop <= cur -> Py.range_iter fuel cur stop step = [::].
Proof. by case: fuel => [|fuel] //= -> ; rewrite ltNge => ->. Qed.

Lemma range_iter_size (stop step : int) (fuel : nat) (cur : int) :
  0 < step -> cur < stop -> stop - cur <= Posz fuel ->
  (size (Py.range_iter fuel cur stop step) : int) =
  ((stop - cur - 1) %/ step)%Z + 1.
Proof.
move=> s0; elim: fuel cur => [|fuel IH] cur lt_cs le_f.
  by move: le_f; rewrite subr_le0 leNgt lt_cs.
rewrite /= s0 lt_cs /=.
case: (ltP (cur + step) stop) => Hn.
- have le_f' : stop - (cur + step) <= Posz fuel.
    rewrite opprD addrA lerBlDr.
    apply: (le_trans le_f); rewrite -addn1 PoszD lerD2l.
    by rewrite -gtz0_ge1.
  rewrite -addn1 PoszD (IH _ Hn le_f'); congr (_ + 1).
  have -> : stop - cur - 1 = 1 * step + (stop - (cur + step) - 1).
    by int_ring.
  by rewrite divzMDl ?gt_eqF // addrC.
- rewrite range_iter_nil //= divz_small ?add0r //.
  rewrite subr_ge0 lerBrDr addrC lezD1 lt_cs /=.
  by rewrite gtz0_abs // ltrBlDr ltzD1 lerBlDl.
Qed.

Lemma range_iter_bounds (stop step : int) (fuel : nat) (cur x : int) :
  0 < step -> List.In x (Py.range_iter fuel cur stop step) ->
  cur <= x < stop.
Proof.
move=> s0; elim: fuel cur => [|fuel IH] cur //=.
rewrite s0; case: ifP => // lt_cs [<-|/IH /andP [Hc ->]].
  by rewrite lexx.
by rewrite andbT (le_trans _ Hc) // lerDl ltW.
Qed.

Lemma frame_angles_step (count : int) :
  1 <= count ->
  let step := (90 %/ count)%Z + 1 in
  0 < step /\
  frame_angles count = Ok [seq a + 1 | a <- Py.range_iter 91 0 91 step].
Proof.
move=> c1 step; have c0 : 0 < count by rewrite gtz0_ge1.
have s0 : 0 < step.
  by rewrite /step -lez1D lerDr // divz_ge0 // .
split=> //.
by rewrite /frame_angles floordiv_pos //= /Py.range gt_eqF.
Qed.

Lemma planner_inputs_unit (img : Image) (bottom_skew : bool) (angle : int) :
  (0 < width img)%N -> (min_height bottom_skew <= height img)%N ->
  1 <= angle <= 91 ->
  coeff_matrix (planner_inputs img bottom_skew angle).1
               (planner_inputs img bottom_skew angle).2 \in unitmx.
Proof.
move=> W0 Hh /andP [a1 a91]; have a0 : 0 < angle by rewrite gtz0_ge1.
case: bottom_skew Hh => Hh; rewrite /planner_inputs.
  exact: bottom_inputs_unit.
by apply: top_inputs_unit => //; exact: ltW.
Qed.

Lemma angled_sprite_ok (img : Image) (bottom_skew : bool) (angle : int) :
  (0 < width img)%N -> (min_height bottom_skew <= height img)%N ->
  1 <= angle <= 91 ->
  angled_sprite img bottom_skew angle = Ok (solved_frame img bottom_skew angle).
Proof.
move=> W0 Hh Ha; have uA := planner_inputs_unit W0 Hh Ha.
rewrite /angled_sprite -/(planner_inputs img bottom_skew angle).
have sa : size (planner_inputs img bottom_skew angle).1 = 4%N.
  by rewrite /planner_inputs; case: bottom_skew {Hh uA}.
have sb : size (planner_inputs img bottom_skew angle).2 = 4%N.
  by rewrite /planner_inputs; case: bottom_skew {Hh uA sa}.
by have [-> _] := find_coeffs_unit sa sb uA.
Qed.

Lemma frame_angles_bounds (step : int) (x : int) :
  0 < step ->
  List.In x [seq a + 1 | a <- Py.range_iter 91 0 91 step] -> 1 <= x <= 91.
Proof.
move=> s0 /List.in_map_iff [a [<- /(range_iter_bounds s0) /andP [a0 a91]]].
by rewrite lerDr a0 lezD1.
Qed.

Lemma make_angles_sprite_set_ok (img : Image) (count : int)
    (bottom_skew : bool) :
  (0 < width img)%N -> (min_height bottom_skew <= height img)%N ->
  1 <= count ->
  make_angles_sprite_set img count bottom_skew =
  Ok [seq solved_frame img bottom_skew x
     | x <- [seq a + 1 | a <- Py.range_iter 91 0 91 ((90 %/ count)%Z + 1)]].
Proof.
move=> W0 Hh c1; have [s0 Hf] := frame_angles_step c1.
rewrite /make_angles_sprite_set Hf /=; apply: for_each_ok => x Hx.
by apply: angled_sprite_ok => //; apply: frame_angles_bounds Hx.
Qed.

(** C2: for a frame count [count >= 1], and an image on which the solver
    succeeds, [make_angles_sprite_set] returns [90 // step + 1] frames with
    [step = 90 // count + 1]; 10 frames for [count = 10]; and for
    [count = 1] the single frame computed from the planner angle 1. *)
Theorem make_angles_sprite_set_frame_count (img : Image) (count : int)
    (bottom_skew : bool) :
  (0 < width img)%N -> (min_height bottom_skew <= height img)%N ->
  1 <= count ->
  exists frames,
    [/\ make_angles_sprite_set img count bottom_skew = Ok frames,
        (size frames : int) = (90 %/ ((90 %/ count)%Z + 1))%Z + 1,
        count = 10 -> size frames = 10%N &
        count = 1 ->
        exists2 f, angled_sprite img bottom_skew 1 = Ok f & frames = [:: f]].
Proof.
move=> W0 Hh c1; have [s0 _] := frame_angles_step c1.
eexists; split; first exact: make_angles_sprite_set_ok.
- by rewrite !size_map range_iter_size.
- by move=> ->; rewrite !size_map.
- move=> ->; exists (solved_frame img bottom_skew 1) => //.
  by apply: angled_sprite_ok.
Qed.

(** ** Well-posed quadrilateral pairs *)

(** A source quadrilateral that lies on the line [y = 0] makes the system
    singular. *)
Lemma flat_source_singular (pa pb : seq point) :
  size pa = 4%N -> size pb = 4%N ->
  (forall k, (k < 4)%N -> (nth (0, 0) pa k).2 = 0) ->
  coeff_matrix pa pb \notin unitmx.
Proof.
move=> sa sb Hy; apply: (@kernel_singular _ 1) => //.
apply: cV8_rows => k Hk.
have [-> ->] := coeff_matrix_rowE (unit_vector 1) sa sb Hk.
by rewrite !coef_unit_vector //= (Hy k Hk) !mxE; split; rat_ring.
Qed.

Lemma planner_find_coeffs_ok (img : Image) (bottom_skew : bool)
    (angle : int) :
  (0 < width img)%N -> (min_height bottom_skew <= height img)%N ->
  1 <= angle <= 91 ->
  exists c, find_coeffs (planner_inputs img bottom_skew angle).1
                        (planner_inputs img bottom_skew angle).2 = Ok c.
Proof.
move=> W0 Hh Ha; have uA := planner_inputs_unit W0 Hh Ha.
have sa : size (planner_inputs img bottom_skew angle).1 = 4%N.
  by rewrite /planner_inputs; case: bottom_skew {Hh uA}.
have sb : size (planner_inputs img bottom_skew angle).2 = 4%N.
  by rewrite /planner_inputs; case: bottom_skew {Hh uA sa}.
by have [-> _] := find_coeffs_unit sa sb uA; eexists.
Qed.

Lemma top_inputs_well_posed (img : Image) (angle : int) :
  (0 < width img)%N -> (0 < height img)%N -> 1 <= angle <= 91 ->
  well_posed (find_top_half_coeffs_inputs_for_angle img angle).
Proof.
move=> W0 H0 Ha; have /andP [a1 _] := Ha.
have a0 : 0 <= angle by apply: le_trans a1.
have x0 := top_x_val_ge0 a0.
have w0 : 0 < (width img)%:R :> rat by rewrite ltr0n.
have hy : 0 < (height img)%:R - top_y_val img angle.
  by rewrite subr_gt0 top_y_val_lt.
have ba : 0 < (width img)%:R + top_x_val angle - - (top_x_val angle + 1).
  rewrite opprK -addrA; apply: addr_gt0; first exact: w0.
  exact: ltr_wpDl x0 (ltr_wpDl x0 ltr01).
split.
- exact: top_shape_area.
- exact: top_shape_no_three_collinear.
- exact: (@planner_find_coeffs_ok img false angle W0 H0 Ha).
Qed.

Lemma bottom_inputs_well_posed (img : Image) (angle : int) :
  (0 < width img)%N -> (1 < height img)%N -> 1 <= angle <= 91 ->
  well_posed (find_bottom_half_coeffs_inputs_for_angle img angle).
Proof.
move=> W0 H1 Ha; have /andP [a1 a91] := Ha.
have a0 : 0 < angle by rewrite gtz0_ge1.
have xl := bottom_x_val_ge a91.
have y0 : 0 < bottom_y_val img angle by exact: y_val_gt0.
have w0 : 0 < (width img)%:R :> rat by rewrite ltr0n.
have ba : 0 < (width img)%:R + bottom_x_val angle
              - - (bottom_x_val angle + 1).
  rewrite opprK -addrA; apply: addr_gt0; first exact: w0.
  rewrite addrA.
  apply: (@lt_le_trans _ _ (- (8 / 90) + - (8 / 90) + 1)).
    by rewrite -opprD addrC subr_gt0 twice_ratio_lt1.
  by rewrite lerD2r; apply: lerD.
split.
- exact: bottom_shape_area.
- exact: bottom_shape_no_three_collinear.
- exact: (@planner_find_coeffs_ok img true angle W0 H1 Ha).
Qed.

(** C9, amended: for every angle that the frame generator passes, and every
    image of positive width and height, the top planner yields a source
    quadrilateral of positive area with no three corners on a line, on which
    [find_coeffs] succeeds; the bottom planner does so when the height is at
    least 2. *)
Theorem planner_quadrilaterals_well_posed (img : Image) (count : int) :
  (0 < width img)%N -> (0 < height img)%N -> 1 <= count ->
  exists angles,
    frame_angles count = Ok angles /\
    forall angle, List.In angle angles ->
      well_posed (find_top_half_coeffs_inputs_for_angle img angle) /\
      ((1 < height img)%N ->
       well_posed (find_bottom_half_coeffs_inputs_for_angle img angle)).
Proof.
move=> W0 H0 c1; have [s0 Hf] := frame_angles_step c1.
eexists; split; first exact: Hf.
move=> angle /(frame_angles_bounds s0) Ha; split.
  exact: top_inputs_well_posed.
by move=> H1; apply: bottom_inputs_well_posed.
Qed.


(** C9, as stated, fails for an image of height 1: at the angle 1, which
    the frame generator passes, the bottom planner yields four points of
    the line [y = 0], and [find_coeffs] raises [LinAlgError]. *)
Lemma bottom_planner_height_one :
  let img := New (1%N, 1%N) in
  let inputs := find_bottom_half_coeffs_inputs_for_angle img 1 in
  [/\ exists2 angles, frame_angles 10 = Ok angles & List.In 1 angles,
      area inputs.1 = 0,
      ~~ no_three_collinear inputs.1 &
      find_coeffs inputs.1 inputs.2 = Raise LinAlgError].
Proof.
move=> img inputs.
have y0 : bottom_y_val img 1 = 0 by apply/eqP; vm_compute.
split.
- by exists [:: 1; 11; 21; 31; 41; 51; 61; 71; 81; 91]; [vm_compute | left].
- by apply/eqP; vm_compute.
- by vm_compute.
- apply: find_coeffs_singular; [exact: erefl | exact: erefl |].
  apply: flat_source_singular; [exact: erefl | exact: erefl |].
  case=> [|[|[|[|k]]]] // _; rewrite /inputs
    /find_bottom_half_coeffs_inputs_for_angle [nth _ _ _]/= ?y0; exact: erefl.
Qed.

(** ** The displacements of the two planners *)

Lemma ninety_ratio : 90 * (8 / 90) = 8 :> rat.
Proof. by rewrite mulrCA divff ?mulr1 // pnatr_eq0. Qed.

(** C3, amended: for every angle from 0 to 91, a range that holds every
    angle the frame generator passes, the x-displacement of the top planner
    plus that of the bottom planner, each computed and then added in
    binary64, is exactly the float of [PADDING_SIZE]. *)
Theorem x_displacements_complementary_to_91 (angle : int) :
  0 <= angle <= 91 ->
  F64.add (top_x_val_float angle) (bottom_x_val_float angle)
    = F64.of_int PADDING_SIZE.
Proof.
case: angle => [n|n] // /andP [_]; rewrite lez_nat => Hn.
do 92!(case: n Hn => [|n] Hn; first by vm_compute).
by [].
Qed.

(** C3, as stated, fails: at the angle 92 the sum, computed in binary64, is
    not equal to [PADDING_SIZE]; it is below it. *)
Lemma x_displacements_at_angle_92 :
  F64.eqb (F64.add (top_x_val_float 92) (bottom_x_val_float 92))
          (F64.of_int PADDING_SIZE) = false /\
  F64.ltb (F64.add (top_x_val_float 92) (bottom_x_val_float 92))
          (F64.of_int PADDING_SIZE) = true.
Proof. by split; vm_compute. Qed.

(** The extremes of the x-displacements, read on the floats. *)
Lemma x_displacement_extremes_float (angle : int) :
  0 <= angle <= 90 ->
  [/\ top_x_val_float 0 = F64.of_int 0 /\
      bottom_x_val_float 0 = F64.of_int PADDING_SIZE,
      top_x_val_float 90 = F64.of_int PADDING_SIZE /\
      bottom_x_val_float 90 = F64.of_int 0,
      F64.leb (F64.of_int 0) (top_x_val_float angle) &&
      F64.leb (top_x_val_float angle) (F64.of_int PADDING_SIZE) &
      F64.leb (F64.of_int 0) (bottom_x_val_float angle) &&
      F64.leb (bottom_x_val_float angle) (F64.of_int PADDING_SIZE)].
Proof.
case: angle => [n|n] // /andP [_]; rewrite lez_nat => Hn.
do 91!(case: n Hn => [|n] Hn; first by split; vm_compute).
by [].
Qed.

Lemma top_x_val_0 : top_x_val 0 = 0.
Proof. by rewrite top_x_valE mul0r. Qed.

Lemma top_x_val_90 : top_x_val 90 = PADDING_SIZE%:R.
Proof. by rewrite top_x_valE -pmulrn ninety_ratio. Qed.

Lemma bottom_x_val_0 : bottom_x_val 0 = PADDING_SIZE%:R.
Proof. by rewrite bottom_x_valE subr0 ninety_ratio. Qed.

Lemma bottom_x_val_90 : bottom_x_val 90 = 0.
Proof. by rewrite bottom_x_valE -pmulrn subrr mul0r. Qed.

Lemma top_x_val_le (angle : int) :
  angle <= 90 -> top_x_val angle <= PADDING_SIZE%:R.
Proof.
move=> a90; rewrite -top_x_val_90 !top_x_valE.
by rewrite (ler_pM2r ratio_gt0) ler_int.
Qed.

Lemma bottom_x_val_top (angle : int) :
  bottom_x_val angle = top_x_val (90 - angle).
Proof. by rewrite bottom_x_valE top_x_valE rmorphB /= -pmulrn. Qed.

(** C7, amended: at angle 0 the x-displacement of the top planner is zero
    and that of the bottom planner is [PADDING_SIZE]; at angle 90 it is the
    reverse; for angles from 0 to 90 both stay between 0 and
    [PADDING_SIZE]. *)
Theorem x_displacement_extremes (angle : int) :
  0 <= angle <= 90 ->
  [/\ top_x_val 0 = 0 /\ bottom_x_val 0 = PADDING_SIZE%:R,
      top_x_val 90 = PADDING_SIZE%:R /\ bottom_x_val 90 = 0,
      0 <= top_x_val angle <= PADDING_SIZE%:R &
      0 <= bottom_x_val angle <= PADDING_SIZE%:R].
Proof.
case/andP=> a0 a90; split.
- by split; [exact: top_x_val_0 | exact: bottom_x_val_0].
- by split; [exact: top_x_val_90 | exact: bottom_x_val_90].
- by rewrite top_x_val_ge0 // top_x_val_le.
- rewrite bottom_x_val_top top_x_val_ge0 ?subr_ge0 // top_x_val_le //.
  by rewrite lerBlDr lerDl.
Qed.

(** C7, as stated, fails: at angle 0 the x-displacement of the bottom
    planner is not zero and that of the top planner is not [PADDING_SIZE]. *)
Lemma x_displacement_at_angle_0 :
  bottom_x_val 0 <> 0 /\ top_x_val 0 <> PADDING_SIZE%:R.
Proof.
rewrite bottom_x_val_0 top_x_val_0; split; first by move/eqP; rewrite pnatr_eq0.
by move/eqP; rewrite eq_sym pnatr_eq0.
Qed.





(** ** The sheet packer on given tiles *)

(** C10: for a positive column count, [pack_images_to_sheet] raises
    [IndexError] on the empty list and returns a sheet on every non-empty
    list. *)
Theorem pack_images_to_sheet_needs_a_tile (w : int) (t : Image)
    (ts : seq Image) :
  0 < w ->
  pack_images_to_sheet [::] w = Raise IndexError /\
  exists sheet, pack_images_to_sheet (t :: ts) w = Ok sheet.
Proof.
move=> w0; split.
  by rewrite /pack_images_to_sheet /ceil_div /Py.truediv gt_eqF.
by have [sheet [r [Hp _ _ _ _]]] := pack_images_to_sheet_ok t ts w0; exists sheet.
Qed.

Lemma pack_images_to_sheet_no_column : forall images,
  pack_images_to_sheet images 0 = Raise ZeroDivisionError.
Proof. by []. Qed.

(** C5, as stated, fails: with 11 tiles of 48x100 and 3 columns the tile of
    index 10 is pasted at (48, 300), not at (288, 300). *)
Lemma pack_eleven_tiles_offset :
  exists2 sheet,
    pack_images_to_sheet (nseq 11 (New (48%N, 100%N))) 3 = Ok sheet &
    (nth no_paste (pasted sheet) 10).1 = (48%:Z, 300%:Z) /\
    (nth no_paste (pasted sheet) 10).1 <> (288%:Z, 300%:Z).
Proof.
eexists; first by vm_compute; reflexivity.
by split; vm_compute.
Qed.

(** C6: on two tiles of 10x10 in 2 columns the sheet is 20x10, and the
    tile of index 1 is pasted at x = 48, the module constant [TILE_WIDTH],
    not at [(1 % 2) * 10]. *)
Theorem pack_small_tiles_offset :
  exists2 sheet,
    pack_images_to_sheet [:: New (10%N, 10%N); New (10%N, 10%N)] 2 = Ok sheet &
    [/\ size_of sheet = (20%N, 10%N),
        (nth no_paste (pasted sheet) 1).1 = (48%:Z, 0%:Z) &
        (nth no_paste (pasted sheet) 1).1 <>
          ((1 %% 2)%Z * 10%:Z, (1 %/ 2)%Z * 10%:Z)].
Proof.
eexists; first by vm_compute; reflexivity.
by split; vm_compute.
Qed.

Lemma Posz_inj2 (m n : nat) : (m : int) = (n : int) -> m = n.
Proof. by case. Qed.

(** C5, amended: for any 11 tiles of 48x100 and 3 columns,
    [pack_images_to_sheet] returns a sheet of 144x400, the row count is 4,
    and the tile of index 10 is pasted at (48, 300). *)
Theorem pack_eleven_tiles (images : seq Image) :
  size images = 11%N ->
  all (fun t => size_of t == (48%N, 100%N)) images ->
  exists sheet,
    [/\ pack_images_to_sheet images 3 = Ok sheet,
        size_of sheet = (144%N, 400%N),
        ceil_div (size images) 3 = Ok 4 &
        (nth no_paste (pasted sheet) 10).1 = (48%:Z, 300%:Z)].
Proof.
case: images => [|t0 [|t1 [|t2 [|t3 [|t4 [|t5 images]]]]]] //.
case: images => [|t6 [|t7 [|t8 [|t9 [|t10 [|? ?]]]]]] // _.
rewrite /= => /and5P [/eqP s0 _ _ _ /and5P [_ _ _ _ /and3P [_ _ /andP [/eqP s10 _]]]].
set images := [:: t0; _; _; _; _; _; _; _; _; _; _].
have [sheet [r [Hp Hr Hw Hh Hpast]]] :=
  @pack_images_to_sheet_first images t0 3 (erefl _) isT.
have c4 : ceil_div (size images) 3 = Ok 4 by vm_compute.
have r4 : r = 4 by move: Hr; rewrite c4; case.
exists sheet; split.
- exact: Hp.
- move: Hw Hh; rewrite r4 /width /height s0 /=; case: (size_of sheet) => a b /=.
  by move=> /Posz_inj2 -> /Posz_inj2 ->.
- exact: c4.
- by rewrite Hpast /= /tile_coords /= /height s10.
Qed.

(** ** The default pipeline *)

Lemma size_of_solved_frame (img : Image) (bottom_skew : bool) (angle : int) :
  size_of (solved_frame img bottom_skew angle) = (width img, height img).
Proof. by []. Qed.

Lemma frame_angles_10 :
  [seq a + 1 | a <- Py.range_iter 91 0 91 ((90 %/ 10)%Z + 1)] =
  [:: 1; 11; 21; 31; 41; 51; 61; 71; 81; 91].
Proof. by vm_compute. Qed.

Lemma digit_frames_ok (i : nat) : digit_frames i = Ok (digit_frame_lists i).
Proof.
rewrite /digit_frames /digit_frame_lists.
by rewrite !make_angles_sprite_set_ok.
Qed.

Lemma bind_Ok {T U : Type} (v : T) (k : T -> result U) :
  Py.bind (Ok v) k = k v.
Proof. by []. Qed.


Lemma first_bottom_sprites :
  Py.first bottom_sprites =
  Ok (solved_frame (get_bottom_half (make_sprite (Py.str 0))) true 1).
Proof. by []. Qed.

Lemma first_top_sprites :
  Py.first top_sprites =
  Ok (solved_frame (get_top_half (make_sprite (Py.str 0))) false 1).
Proof. by []. Qed.

Lemma size_bottom_sprites : size bottom_sprites = 100%N.
Proof. by []. Qed.

Lemma size_top_sprites : size top_sprites = 100%N.
Proof. by []. Qed.

Lemma ceil_div_100_10 : ceil_div 100%N 10 = Ok 10.
Proof. by vm_compute. Qed.

Lemma pack_sprites (sprites : seq Image) (t : Image) :
  Py.first sprites = Ok t -> size sprites = 100%N ->
  size_of t = (48%N, 50%N) ->
  exists2 sheet, pack_images_to_sheet sprites 10 = Ok sheet &
                 size_of sheet = (480%N, 500%N).
Proof.
move=> Hf Hs Ht.
have [sheet [r [Hp Hr Hw Hh _]]] := @pack_images_to_sheet_first _ _ 10 Hf isT.
exists sheet; first exact: Hp.
have r10 : r = 10 by move: Hr; rewrite Hs ceil_div_100_10; case.
move: Hw Hh; rewrite r10 /width /height Ht /=.
by case: (size_of sheet) => a b /= /Posz_inj2 -> /Posz_inj2 ->.
Qed.

Lemma bind_pair {T U : Type} (r1 : result T) (r2 : result U) (a : T) (b : U) :
  r1 = Ok a -> r2 = Ok b -> (x <- r1 ;; y <- r2 ;; Ok (x, y)) = Ok (a, b).
Proof. by move=> -> ->. Qed.

Lemma make_animations_sheets_packs :
  make_animations_sheets =
  (bottom_sheet <- pack_images_to_sheet bottom_sprites 10 ;;
   top_sheet <- pack_images_to_sheet top_sprites 10 ;;
   Ok (bottom_sheet, top_sheet)).
Proof.
rewrite /make_animations_sheets.
have -> : Py.for_each digit_frames (iota 0 10) =
          Ok [seq digit_frame_lists i | i <- iota 0 10].
  by apply: for_each_ok => i _; exact: digit_frames_ok.
rewrite bind_Ok.
exact: erefl.
Qed.

Lemma make_animations_sheets_sizes :
  exists bottom_sheet top_sheet,
    [/\ make_animations_sheets = Ok (bottom_sheet, top_sheet),
        size_of bottom_sheet = (480%N, 500%N) &
        size_of top_sheet = (480%N, 500%N)].
Proof.
have [bs Hb Sb] :=
  pack_sprites first_bottom_sprites size_bottom_sprites (erefl _).
have [ts Ht St] :=
  pack_sprites first_top_sprites size_top_sprites (erefl _).
exists bs, ts; split; [|exact: Sb|exact: St].
rewrite make_animations_sheets_packs.
exact: bind_pair Hb Ht.
Qed.

(** C4, amended: the default pipeline yields a bottom and a top animation
    sheet of 480x500 each: 10 columns of width 48, and 10 rows of the height
    50 of a half tile. *)
Theorem animation_sheets_size :
  exists bottom_sheet top_sheet,
    [/\ make_animations_sheets = Ok (bottom_sheet, top_sheet),
        size_of bottom_sheet = ((48 * 10)%N, (50 * 10)%N) &
        size_of top_sheet = ((48 * 10)%N, (50 * 10)%N)].
Proof. exact: make_animations_sheets_sizes. Qed.

(** C4, as stated, fails: neither animation sheet is 480x1000. *)
Lemma animation_sheets_not_1000_high :
  exists bottom_sheet top_sheet,
    [/\ make_animations_sheets = Ok (bottom_sheet, top_sheet),
        size_of bottom_sheet <> (480%N, 1000%N) &
        size_of top_sheet <> (480%N, 1000%N)].
Proof.
have [bs [ts [H Sb St]]] := make_animations_sheets_sizes.
by exists bs, ts; split; [exact: H | rewrite Sb | rewrite St].
Qed.

(** ** Instances on the tiles of the default pipeline *)

Lemma make_angles_sprite_set_frame_count_witness :
  exists frames,
    make_angles_sprite_set (New (48%N, 50%N)) 10 true = Ok frames /\
    size frames = 10%N.
Proof.
have [frames [H _ H10 _]] :=
  @make_angles_sprite_set_frame_count (New (48%N, 50%N)) 10 true isT isT isT.
by exists frames; split; [exact: H | exact: H10].
Defined.

Lemma planner_quadrilaterals_well_posed_witness :
  exists angles,
    frame_angles 10 = Ok angles /\
    forall angle, List.In angle angles ->
      well_posed
        (find_top_half_coeffs_inputs_for_angle (New (48%N, 50%N)) angle) /\
      ((1 < height (New (48%N, 50%N)))%N ->
       well_posed
         (find_bottom_half_coeffs_inputs_for_angle (New (48%N, 50%N)) angle)).
Proof.
exact: (@planner_quadrilaterals_well_posed (New (48%N, 50%N)) 10 isT isT isT).
Defined.

Lemma x_displacement_extremes_witness :
  0 <= top_x_val 45 <= PADDING_SIZE%:R /\
  0 <= bottom_x_val 45 <= PADDING_SIZE%:R.
Proof.
have [_ _ Ht Hb] := @x_displacement_extremes 45 isT.
split; [exact: Ht | exact: Hb].
Defined.

Lemma x_displacements_complementary_to_91_witness :
  F64.add (top_x_val_float 45) (bottom_x_val_float 45)
    = F64.of_int PADDING_SIZE.
Proof. exact: (@x_displacements_complementary_to_91 45 isT). Defined.


Lemma pack_images_to_sheet_needs_a_tile_witness :
  pack_images_to_sheet [::] 10 = Raise IndexError /\
  exists sheet, pack_images_to_sheet [:: New (48%N, 50%N)] 10 = Ok sheet.
Proof.
exact: (@pack_images_to_sheet_needs_a_tile 10 (New (48%N, 50%N)) [::] isT).
Defined.

Lemma pack_eleven_tiles_witness :
  exists sheet,
    [/\ pack_images_to_sheet (nseq 11 (New (48%N, 100%N))) 3 = Ok sheet,
        size_of sheet = (144%N, 400%N),
        ceil_div (size (nseq 11 (New (48%N, 100%N)))) 3 = Ok 4 &
        (nth no_paste (pasted sheet) 10).1 = (48%:Z, 300%:Z)].
Proof.
exact: (@pack_eleven_tiles (nseq 11 (New (48%N, 100%N))) (erefl _) isT).
Defined.

(** * Further properties of the code *)

(** ** The frame generator *)

Lemma range_iter_nth (stop step : int) (fuel : nat) (cur : int) (k : nat) :
  0 < step -> (k < size (Py.range_iter fuel cur stop step))%N ->
  nth 0 (Py.range_iter fuel cur stop step) k = cur + (k : int) * step.
Proof.
move=> s0; elim: fuel cur k => [|fuel IH] cur k //=.
rewrite s0; case: ifP => // _; case: k => [|k] /=.
  by rewrite mul0r addr0.
rewrite ltnS => /IH ->.
by rewrite -addn1 PoszD; int_ring.
Qed.

Lemma In_nth {T : Type} (x0 : T) (s : seq T) (k : nat) :
  (k < size s)%N -> List.In (nth x0 s k) s.
Proof.
elim: s k => [|x s IH] [|k] //=; first by left.
by rewrite ltnS => /IH; right.
Qed.

(** X5: The planner angles of the frames are [1], [1 + step], [1 + 2 * step],
    ..., with [step = 90 // count + 1]. *)
Theorem frame_angles_progression (count : int) :
  1 <= count ->
  exists angles,
    [/\ frame_angles count = Ok angles,
        (size angles : int) = (90 %/ ((90 %/ count)%Z + 1))%Z + 1 &
        forall k, (k < size angles)%N ->
          nth 0 angles k = 1 + (k : int) * ((90 %/ count)%Z + 1) /\
          1 <= nth 0 angles k <= 91].
Proof.
move=> c1; have [s0 Hf] := frame_angles_step c1.
eexists; split; first exact: Hf.
  by rewrite size_map range_iter_size.
move=> k; rewrite size_map => Hk; split.
  rewrite (nth_map 0) // range_iter_nth //; int_ring.
apply: (frame_angles_bounds s0).
by apply: In_nth; rewrite size_map.
Qed.

Lemma frame_angles_progression_witness :
  exists angles,
    [/\ frame_angles 10 = Ok angles,
        (size angles : int) = (90 %/ ((90 %/ 10)%Z + 1))%Z + 1 &
        forall k, (k < size angles)%N ->
          nth 0 angles k = 1 + (k : int) * ((90 %/ 10)%Z + 1) /\
          1 <= nth 0 angles k <= 91].
Proof. exact: (@frame_angles_progression 10 isT). Defined.

(** X6: The frame generator returns at least one frame, never more than [count]
    nor 91 of them, exactly 91 once [count] exceeds 90, and every frame has
    the size of the input image. *)
Theorem make_angles_sprite_set_bounds (img : Image) (count : int)
    (bottom_skew : bool) :
  (0 < width img)%N -> (min_height bottom_skew <= height img)%N ->
  1 <= count ->
  exists frames,
    [/\ make_angles_sprite_set img count bottom_skew = Ok frames,
        1 <= (size frames : int) <= count,
        (size frames <= 91)%N,
        90 < count -> size frames = 91%N &
        forall f, List.In f frames -> size_of f = size_of img].
Proof.
move=> W0 Hh c1; have [s0 _] := frame_angles_step c1.
have c0 : 0 < count by rewrite gtz0_ge1.
eexists; split; first exact: make_angles_sprite_set_ok.
- rewrite !size_map range_iter_size // lerDr divz_ge0 //=.
  by rewrite -ltzD1 ltrD2r ltz_divLR // mulrC ltz_ceil.
- rewrite -lez_nat !size_map range_iter_size // -ltzD1 ltrD2r ltz_divLR //.
  apply: (@lt_le_trans _ _ (91 * 1)) => //.
  by rewrite ler_pM2l // -gtz0_ge1.
- move=> c90; apply: Posz_inj2; rewrite !size_map range_iter_size //.
  by rewrite [(90 %/ count)%Z]divz_small ?add0r ?divz1 // gtz0_abs.
- move=> f /List.in_map_iff [x [<- _]].
  by rewrite size_of_solved_frame /width /height; case: (size_of img).
Qed.

Lemma make_angles_sprite_set_bounds_witness :
  exists frames,
    [/\ make_angles_sprite_set (New (48%N, 50%N)) 10 true = Ok frames,
        1 <= (size frames : int) <= 10,
        (size frames <= 91)%N,
        90 < (10 : int) -> size frames = 91%N &
        forall f, List.In f frames -> size_of f = size_of (New (48%N, 50%N))].
Proof.
exact: (@make_angles_sprite_set_bounds (New (48%N, 50%N)) 10 true
          isT isT isT).
Defined.

Lemma range_iter_downward (fuel : nat) (cur stop step : int) :
  step < 0 -> cur <= stop -> Py.range_iter fuel cur stop step = [::].
Proof.
case: fuel => [|fuel] //= s0 le_cs.
by rewrite ltNge (ltW s0) /= ltNge le_cs.
Qed.

(** X7: On a count that is not positive the frame generator makes no frame: it
    raises [ZeroDivisionError] for 0, [ValueError] (a zero [range] step) from
    -90 down, and returns the empty list in between. *)
Theorem make_angles_sprite_set_nonpositive (img : Image) (count : int)
    (bottom_skew : bool) :
  count <= 0 ->
  make_angles_sprite_set img count bottom_skew =
  if count == 0 then Raise ZeroDivisionError
  else if count <= -90 then Raise ValueError
  else Ok [::].
Proof.
rewrite le_eqVlt => /orP [/eqP ->|c0] //.
rewrite lt_eqF // /make_angles_sprite_set /frame_angles /Py.floordiv lt_eqF //.
rewrite ltNge (ltW c0) /=.
have d0 : 0 < - count by rewrite oppr_gt0.
have qlt : ((- 90) %/ (- count))%Z < 0 by rewrite ltz_divLR // mul0r.
case: (leP count (-90)) => Hc.
- have -> : ((- 90) %/ (- count))%Z = -1.
    apply/eqP; rewrite eq_le -ltzD1 qlt lez_divRL // mulN1r opprK.
    by rewrite Hc.
  by [].
- have step_lt0 : ((- 90) %/ (- count))%Z + 1 < 0.
    by rewrite -ltrBrDr sub0r ltz_divLR // mulN1r opprK.
  by rewrite /Py.range lt_eqF // bind_Ok range_iter_downward.
Qed.

Lemma make_angles_sprite_set_nonpositive_witness :
  make_angles_sprite_set (New (48%N, 50%N)) (- 7) true = Ok [::].
Proof.
exact: (@make_angles_sprite_set_nonpositive (New (48%N, 50%N)) (- 7) true isT).
Defined.

Lemma bottom_y_val_height_one (img : Image) :
  height img = 1%N -> bottom_y_val img 1 = 0.
Proof. by rewrite /bottom_y_val => ->; apply/eqP; vm_compute. Qed.

Lemma for_each_raise {T U : Type} (body : T -> result U) (x : T)
    (s : seq T) (e : exn) :
  body x = Raise e -> Py.for_each body (x :: s) = Raise e.
Proof. by rewrite /= => ->. Qed.

Lemma range_iter_cons (stop step : int) (fuel : nat) (cur : int) :
  0 < step -> cur < stop ->
  Py.range_iter fuel.+1 cur stop step =
  cur :: Py.range_iter fuel (cur + step) stop step.
Proof. by move=> s0 lt_cs; rewrite /= s0 lt_cs. Qed.

Lemma frame_angles_first (count : int) :
  1 <= count -> exists rest, frame_angles count = Ok (1 :: rest).
Proof.
move=> c1; have [s0 ->] := frame_angles_step c1.
rewrite (@range_iter_cons 91 _ 90 0 s0 isT) map_cons.
by eexists.
Qed.

Lemma bottom_inputs_flat (img : Image) :
  height img = 1%N ->
  find_coeffs (find_bottom_half_coeffs_inputs_for_angle img 1).1
              (find_bottom_half_coeffs_inputs_for_angle img 1).2
  = Raise LinAlgError.
Proof.
move=> H1.
apply: find_coeffs_singular; [exact: erefl | exact: erefl |].
apply: flat_source_singular; [exact: erefl | exact: erefl |].
case=> [|[|[|[|k]]]] Hk.
- exact: erefl.
- exact: erefl.
- exact: bottom_y_val_height_one.
- exact: bottom_y_val_height_one.
- case: (Bool.diff_false_true Hk).
Qed.

Lemma bind_Raise {T U : Type} (e : exn) (k : T -> result U) :
  Py.bind (Raise e) k = Raise e.
Proof. by []. Qed.

(** X8: On an image of height 1 the bottom mode produces no frames at all: the
    first quadrilateral is flat and the solver raises [LinAlgError]. *)
Theorem make_angles_sprite_set_flat_bottom (img : Image) (count : int) :
  height img = 1%N -> 1 <= count ->
  make_angles_sprite_set img count true = Raise LinAlgError.
Proof.
move=> H1 c1; have [rest Hf] := frame_angles_first c1.
rewrite /make_angles_sprite_set Hf bind_Ok; apply: for_each_raise.
by rewrite /angled_sprite (bottom_inputs_flat H1) bind_Raise.
Qed.

Lemma make_angles_sprite_set_flat_bottom_witness :
  make_angles_sprite_set (New (48%N, 1%N)) 10 true = Raise LinAlgError.
Proof.
exact: (@make_angles_sprite_set_flat_bottom (New (48%N, 1%N)) 10
          (erefl _) isT).
Defined.

(** ** Halves and the sheet packer *)

(** X9: The two halves keep the width, their heights add up to the height of the
    image, and the bottom half is the taller one by at most one row. *)
Theorem halves_partition (img : Image) :
  [/\ width (get_top_half img) = width img,
      width (get_bottom_half img) = width img,
      (height (get_top_half img) + height (get_bottom_half img))%N
        = height img &
      (height (get_top_half img) <= height (get_bottom_half img)
         <= (height (get_top_half img)).+1)%N].
Proof.
rewrite /get_top_half /get_bottom_half /width /height /= !subn0.
set h := (size_of img).2.
have le2 : (h %/ 2 <= h)%N by exact: leq_div.
split=> //; first by rewrite subnKC.
have Hd := divn_eq h 2.
apply/andP; split.
- by rewrite leq_subRL // addnn -muln2 leq_trunc_div.
- rewrite leq_subLR addnS addnn -muln2.
  have -> : ((h %/ 2 * 2).+1 = h %/ 2 * 2 + 1)%N by rewrite addn1.
  by rewrite {1}Hd leq_add2l -ltnS ltn_pmod.
Qed.

Lemma ceil_div_rows (n : nat) (w r : int) :
  0 < w -> ceil_div n w = Ok r -> (r - 1) * w < (n : int) <= r * w.
Proof.
move=> w0; rewrite /ceil_div /Py.truediv gt_eqF //= => -[<-].
have w0q : 0 < w%:~R :> rat by rewrite ltr0z.
have /andP [lo hi] := ceil_itv ((n : int)%:~R / w%:~R : rat).
move: lo hi; rewrite ltr_pdivlMr // ler_pdivrMr // -!rmorphM /=.
by rewrite ltr_int ler_int => -> ->.
Qed.

Lemma nth_enumerate {T : Type} (x0 : T) (k0 : int) (s : seq T) (i : nat) :
  (i < size s)%N -> nth (k0, x0) (Py.enumerate s) i = (Posz i, nth x0 s i).
Proof.
move=> lt_i; rewrite /Py.enumerate nth_zip ?size_map ?size_iota //.
by rewrite (nth_map 0%N) ?size_iota // nth_iota.
Qed.

Lemma enumerate_tiles {T : Type} (s : seq T) :
  [seq it.2 | it <- Py.enumerate s] = s.
Proof.
rewrite /Py.enumerate -/(unzip2 _) unzip2_zip //.
by rewrite size_map size_iota.
Qed.

Lemma size_enumerate {T : Type} (s : seq T) : size (Py.enumerate s) = size s.
Proof. by rewrite /Py.enumerate size_zip size_map size_iota minnn. Qed.

Lemma pack_images_to_sheet_inv (images : seq Image) (w : int) (sheet : Image) :
  0 < w -> pack_images_to_sheet images w = Ok sheet ->
  exists t ts row_count,
    [/\ images = t :: ts,
        ceil_div (size images) w = Ok row_count,
        (width sheet : int) = (width t : int) * w,
        (height sheet : int) = (height t : int) * row_count &
        pasted sheet =
          [seq (tile_coords w it, it.2) | it <- Py.enumerate images]].
Proof.
move=> w0; case: images => [|t ts].
  by rewrite /pack_images_to_sheet /ceil_div /Py.truediv gt_eqF.
have [s' [r [-> Hr Hw Hh Hp]]] := pack_images_to_sheet_ok t ts w0.
by case=> <-; exists t, ts, r; split.
Qed.

Lemma pasted_tiles (images : seq Image) (w : int) (sheet : Image) :
  0 < w -> pack_images_to_sheet images w = Ok sheet ->
  [seq p.2 | p <- pasted sheet] = images.
Proof.
move=> w0 /(pack_images_to_sheet_inv w0) [t [ts [r [_ _ _ _ ->]]]].
by rewrite -map_comp -[RHS]enumerate_tiles; apply: eq_map.
Qed.

(** X10: For a positive column count the packer pastes every tile of a non-empty
    list exactly once, in the order of the list, and nothing else. *)
Theorem pack_images_to_sheet_pastes_all (t : Image) (ts : seq Image)
    (w : int) :
  0 < w ->
  exists2 sheet, pack_images_to_sheet (t :: ts) w = Ok sheet &
                 [seq p.2 | p <- pasted sheet] = t :: ts.
Proof.
move=> w0; have [sheet [r [Hp _ _ _ _]]] := pack_images_to_sheet_ok t ts w0.
by exists sheet; [exact: Hp | exact: pasted_tiles Hp].
Qed.

Lemma pack_images_to_sheet_pastes_all_witness :
  exists2 sheet,
    pack_images_to_sheet [:: New (48%N, 50%N); New (48%N, 50%N)] 2 = Ok sheet &
    [seq p.2 | p <- pasted sheet] = [:: New (48%N, 50%N); New (48%N, 50%N)].
Proof.
exact: (@pack_images_to_sheet_pastes_all
          (New (48%N, 50%N)) [:: New (48%N, 50%N)] 2 isT).
Defined.

Lemma sheet_rows (t : Image) (ts : seq Image) (w : int) (sheet : Image) :
  0 < w -> pack_images_to_sheet (t :: ts) w = Ok sheet ->
  exists row_count : int,
    [/\ (height sheet : int) = (height t : int) * row_count,
        (width sheet : int) = (width t : int) * w,
        0 < row_count &
        (row_count - 1) * w < (size (t :: ts) : int) <= row_count * w].
Proof.
move=> w0 /(pack_images_to_sheet_inv w0) [t' [ts' [r [[<- _] Hr Hw Hh _]]]].
exists r; split=> //; last exact: ceil_div_rows Hr.
have /andP [_ hi] := ceil_div_rows w0 Hr.
by rewrite -(pmulr_lgt0 _ w0); apply: lt_le_trans hi.
Qed.

(** X11: The sheet is as wide as [width] first tiles and as high as [row_count]
    first tiles, where [row_count] is exactly the number of rows that the
    tiles need: the last row is not empty and no tile is left out. *)
Theorem pack_images_to_sheet_rows (t : Image) (ts : seq Image) (w : int) :
  0 < w ->
  exists (sheet : Image) (row_count : int),
    [/\ pack_images_to_sheet (t :: ts) w = Ok sheet,
        (height sheet : int) = (height t : int) * row_count,
        (width sheet : int) = (width t : int) * w,
        0 < row_count &
        (row_count - 1) * w < (size (t :: ts) : int) <= row_count * w].
Proof.
move=> w0; have [sheet [r0 [Hp _ _ _ _]]] := pack_images_to_sheet_ok t ts w0.
have [r [Hh Hw r_gt0 Hr]] := sheet_rows w0 Hp.
by exists sheet, r; split.
Qed.

Lemma pack_images_to_sheet_rows_witness :
  exists (sheet : Image) (row_count : int),
    [/\ pack_images_to_sheet [:: New (48%N, 50%N); New (48%N, 50%N)] 2
          = Ok sheet,
        (height sheet : int) = (height (New (48%N, 50%N)) : int) * row_count,
        (width sheet : int) = (width (New (48%N, 50%N)) : int) * 2,
        0 < row_count &
        (row_count - 1) * 2
          < (size [:: New (48%N, 50%N); New (48%N, 50%N)] : int)
          <= row_count * 2].
Proof.
exact: (@pack_images_to_sheet_rows
          (New (48%N, 50%N)) [:: New (48%N, 50%N)] 2 isT).
Defined.

Lemma nth_pasted (images : seq Image) (w : int) (sheet : Image) (h i : nat) :
  0 < w -> all (fun t => size_of t == (TILE_WIDTH, h)) images ->
  pack_images_to_sheet images w = Ok sheet -> (i < size images)%N ->
  (nth no_paste (pasted sheet) i).1 =
    ((Posz i %% w)%Z * TILE_WIDTH, (Posz i %/ w)%Z * (h : int)).
Proof.
move=> w0 Hall /(pack_images_to_sheet_inv w0) [t [ts [r [_ _ _ _ ->]]]] lt_i.
rewrite (nth_map (0, New (0%N, 0%N))) ?size_enumerate // nth_enumerate //.
rewrite /tile_coords /= /height.
by have /eqP -> := all_nthP (New (0%N, 0%N)) Hall i lt_i.
Qed.

Lemma sheet_grid (images : seq Image) (w : int) (h : nat)
    (sheet : Image) (i : nat) :
  0 < w -> (0 < h)%N ->
  all (fun t => size_of t == (TILE_WIDTH, h)) images ->
  pack_images_to_sheet images w = Ok sheet ->
  (i < size images)%N ->
  let xy := (nth no_paste (pasted sheet) i).1 in
  [/\ 0 <= xy.1, xy.1 + (TILE_WIDTH : int) <= (width sheet : int),
      0 <= xy.2, xy.2 + (h : int) <= (height sheet : int) &
      forall j, (j < size images)%N ->
        (nth no_paste (pasted sheet) j).1 = xy -> j = i].
Proof.
move=> w0 h0 Hall Hp lt_i xy.
have Hxy : xy = ((Posz i %% w)%Z * TILE_WIDTH, (Posz i %/ w)%Z * (h : int)).
  exact: nth_pasted Hall Hp lt_i.
have [t [ts [r [Himg Hr Hw Hh _]]]] := pack_images_to_sheet_inv w0 Hp.
have /andP [_ hi] := ceil_div_rows w0 Hr.
have St : size_of t = (TILE_WIDTH, h).
  by move: Hall; rewrite Himg /= => /andP [/eqP].
have wn0 : w != 0 by rewrite gt_eqF.
have T0 : 0 < (TILE_WIDTH : int) by [].
have h0z : 0 < (h : int) by [].
rewrite Hxy /=; split.
- by rewrite mulr_ge0 // modz_ge0.
- rewrite Hw /width St /= -[X in _ + X]mul1r -mulrDl.
  by rewrite [X in _ <= X]mulrC (ler_pM2r T0) lezD1 ltz_pmod.
- by rewrite mulr_ge0 // divz_ge0.
- rewrite Hh /height St /= -[X in _ + X]mul1r -mulrDl mulrC.
  rewrite (ler_pM2l h0z) lezD1 ltz_divLR //.
  by apply: lt_le_trans hi; rewrite ltz_nat.
- move=> j lt_j; rewrite (nth_pasted w0 Hall Hp lt_j) => -[Hm Hd].
  have Em : (Posz j %% w)%Z = (Posz i %% w)%Z.
    by apply: (mulIf _ Hm); rewrite gt_eqF.
  have Ed : (Posz j %/ w)%Z = (Posz i %/ w)%Z.
    by apply: (mulIf _ Hd); rewrite gt_eqF.
  apply: Posz_inj2.
  by rewrite (divz_eq j w) (divz_eq i w) Em Ed.
Qed.

(** X12: Tiles of the module's tile width and of one common height are laid out
    on a grid: each tile is pasted inside the sheet, and two different tiles
    never share a cell. *)
Theorem pack_images_to_sheet_grid (t : Image) (ts : seq Image) (w : int)
    (h : nat) :
  0 < w -> (0 < h)%N ->
  all (fun u => size_of u == (TILE_WIDTH, h)) (t :: ts) ->
  exists2 sheet, pack_images_to_sheet (t :: ts) w = Ok sheet &
    forall i, (i < size (t :: ts))%N ->
      let xy := (nth no_paste (pasted sheet) i).1 in
      [/\ 0 <= xy.1, xy.1 + (TILE_WIDTH : int) <= (width sheet : int),
          0 <= xy.2, xy.2 + (h : int) <= (height sheet : int) &
          forall j, (j < size (t :: ts))%N ->
            (nth no_paste (pasted sheet) j).1 = xy -> j = i].
Proof.
move=> w0 h0 Hall.
have [sheet [r [Hp _ _ _ _]]] := pack_images_to_sheet_ok t ts w0.
exists sheet; first exact: Hp.
by move=> i lt_i; apply: sheet_grid Hp lt_i.
Qed.

Lemma pack_images_to_sheet_grid_witness :
  exists2 sheet,
    pack_images_to_sheet [:: New (48%N, 50%N); New (48%N, 50%N)] 2 = Ok sheet &
    forall i, (i < size [:: New (48%N, 50%N); New (48%N, 50%N)])%N ->
      let xy := (nth no_paste (pasted sheet) i).1 in
      [/\ 0 <= xy.1, xy.1 + (TILE_WIDTH : int) <= (width sheet : int),
          0 <= xy.2, xy.2 + (50%N : int) <= (height sheet : int) &
          forall j, (j < size [:: New (48%N, 50%N); New (48%N, 50%N)])%N ->
            (nth no_paste (pasted sheet) j).1 = xy -> j = i].
Proof.
exact: (@pack_images_to_sheet_grid
          (New (48%N, 50%N)) [:: New (48%N, 50%N)] 2 50 isT isT isT).
Defined.

(** X13: With a column count that is not positive the packer fails on every list
    of tiles of positive width: division by zero for 0 columns, otherwise
    the lookup of the first tile on the empty list and the negative sheet
    width on the others. *)
Theorem pack_images_to_sheet_bad_columns (images : seq Image) (w : int) :
  w <= 0 -> all (fun t => (0 < width t)%N) images ->
  pack_images_to_sheet images w =
    Raise (if w == 0 then ZeroDivisionError
           else if images is [::] then IndexError else ValueError).
Proof.
rewrite le_eqVlt => /orP [/eqP -> _ | w0]; first by [].
rewrite lt_eqF // /pack_images_to_sheet /ceil_div /Py.truediv lt_eqF //=.
case: images => [|t ts] //= /andP [wt _].
rewrite /Image_new.
have -> : (0 <= (width t : int) * w) = false.
  by apply/negbTE; rewrite -ltNge pmulr_rlt0.
by [].
Qed.

Lemma pack_images_to_sheet_bad_columns_witness :
  pack_images_to_sheet [:: New (48%N, 50%N)] (-1) =
    Raise (if (-1 : int) == 0 then ZeroDivisionError
           else if [:: New (48%N, 50%N)] is [::] then IndexError
                else ValueError).
Proof.
exact: (@pack_images_to_sheet_bad_columns [:: New (48%N, 50%N)] (-1) isT isT).
Defined.

Lemma sheet_narrow_tiles (t : Image) (ts : seq Image) (w : nat)
    (sheet : Image) :
  (1 < w)%N -> (w <= size (t :: ts))%N ->
  (width t < TILE_WIDTH)%N ->
  all (fun u => width u == width t) ts ->
  pack_images_to_sheet (t :: ts) w = Ok sheet ->
  (width sheet : int) <
    (nth no_paste (pasted sheet) w.-1).1.1 +
    (width (nth no_paste (pasted sheet) w.-1).2 : int).
Proof.
case: w => [|[|w]] // _ le_w lt_t Hall Hp.
set p := nth _ _ _.
have w0 : 0 < Posz w.+2 by [].
have lt_i : (w.+1 < size (t :: ts))%N by [].
have [t' [ts' [r [[<- _] _ Hw _ Hpast]]]] := pack_images_to_sheet_inv w0 Hp.
have Ep : p = (tile_coords w.+2 (Posz w.+1, nth (New (0%N, 0%N)) (t :: ts) w.+1),
               nth (New (0%N, 0%N)) (t :: ts) w.+1).
  rewrite /p Hpast (nth_map (0, New (0%N, 0%N))) ?size_enumerate //.
  by rewrite nth_enumerate.
have Et : width (nth (New (0%N, 0%N)) (t :: ts) w.+1) = width t.
  have Hall' : all (fun u => width u == width t) (t :: ts) by rewrite /= eqxx.
  by have /eqP := all_nthP (New (0%N, 0%N)) Hall' w.+1 lt_i.
have Hm : 0 <= Posz w.+1 < Posz w.+2 by rewrite ltz_nat ltnSn.
rewrite Ep Hw /= Et (modz_small Hm).
rewrite -!PoszM -PoszD ltz_nat mulnS addnC ltn_add2r mulnC.
by rewrite ltn_pmul2l.
Qed.

(** X14: Tiles narrower than the module's tile width do not fit: with at least
    two columns and a full first row, the packer returns a sheet on which
    the last tile of the first row sticks out of the right edge. *)
Theorem pack_images_to_sheet_narrow_tiles (t : Image) (ts : seq Image)
    (w : nat) :
  (1 < w)%N -> (w <= size (t :: ts))%N ->
  (width t < TILE_WIDTH)%N ->
  all (fun u => width u == width t) ts ->
  exists2 sheet, pack_images_to_sheet (t :: ts) w = Ok sheet &
    (width sheet : int) <
      (nth no_paste (pasted sheet) w.-1).1.1 +
      (width (nth no_paste (pasted sheet) w.-1).2 : int).
Proof.
move=> w1 le_w lt_t Hall.
have w0 : 0 < Posz w by rewrite ltz_nat ltnW.
have [sheet [r [Hp _ _ _ _]]] := pack_images_to_sheet_ok t ts w0.
exists sheet; first exact: Hp.
exact: sheet_narrow_tiles Hp.
Qed.

Lemma pack_images_to_sheet_narrow_tiles_witness :
  exists2 sheet,
    pack_images_to_sheet [:: New (10%N, 10%N); New (10%N, 10%N)] 2%N
      = Ok sheet &
    (width sheet : int) <
      (nth no_paste (pasted sheet) 2%N.-1).1.1 +
      (width (nth no_paste (pasted sheet) 2%N.-1).2 : int).
Proof.
exact: (@pack_images_to_sheet_narrow_tiles
          (New (10%N, 10%N)) [:: New (10%N, 10%N)] 2 isT isT isT isT).
Defined.

(** ** The sheets of a run *)

Lemma make_sprite_inj : injective make_sprite.
Proof. by move=> c c' []. Qed.

(** X15: The static sheet is 144x400 and holds the eleven glyph sprites, the
    sprite of the glyph of index [i] pasted without a mask in the cell [i]
    of the 3x4 grid and the last cell left empty; the packer puts the same
    sprites at the same places of a sheet of the same size when it is given
    them with 3 columns. *)
Theorem make_static_sheet_layout :
  exists sheet packed,
    [/\ (make_static_sheet = Ok sheet) /\
        (pack_images_to_sheet glyph_sprites 3 = Ok packed),
        (size_of sheet = (144%N, 400%N)) /\
        (size_of packed = (144%N, 400%N)),
        (pasted sheet =
          [seq (grid_cell 3 100 i, make_sprite (nth EmptyString glyphs i))
          | i <- iota 0 11]) /\
        (pasted packed = pasted sheet),
        paste_masks sheet = nseq 11 None &
        grid_cell 3 100 11 \notin [seq p.1 | p <- pasted sheet]].
Proof.
eexists; eexists; split.
- by split; vm_compute; reflexivity.
- by split.
- by split; vm_compute.
- by vm_compute.
- by vm_compute.
Qed.

Lemma nth_flatten_rows {T : Type} (x0 : T) (rows : seq (seq T))
    (n d k : nat) :
  all (fun r => size r == n) rows -> (d < size rows)%N -> (k < n)%N ->
  nth x0 (flatten rows) (d * n + k) = nth x0 (nth [::] rows d) k.
Proof.
elim: rows d => [|r rows IH] [|d] //= /andP [/eqP Sr Hall] lt_d lt_k.
  by rewrite mul0n add0n nth_cat Sr lt_k.
rewrite nth_cat Sr mulSn -addnA ltnNge leq_addr /=.
by rewrite addKn; apply: IH.
Qed.

Lemma nth_angles (k : nat) :
  (k < 10)%N ->
  nth 0 ([:: 1; 11; 21; 31; 41; 51; 61; 71; 81; 91] : seq int) k
    = 1 + 10 * Posz k.
Proof. by do 10!(case: k => [|k] //). Qed.

Lemma digit_frame_lists_bottom (d : nat) :
  (digit_frame_lists d).1 =
  [seq solved_frame (get_bottom_half (make_sprite (Py.str d))) true x
  | x <- [:: 1; 11; 21; 31; 41; 51; 61; 71; 81; 91]].
Proof. by []. Qed.

Lemma digit_frame_lists_top (d : nat) :
  (digit_frame_lists d).2 =
  [seq solved_frame (get_top_half (make_sprite (Py.str d))) false x
  | x <- [:: 1; 11; 21; 31; 41; 51; 61; 71; 81; 91]].
Proof. by []. Qed.

Lemma nth_bottom_sprites (d k : nat) :
  (d < 10)%N -> (k < 10)%N ->
  nth (New (0%N, 0%N)) bottom_sprites (d * 10 + k) =
  solved_frame (get_bottom_half (make_sprite (Py.str d))) true (1 + 10 * Posz k).
Proof.
move=> lt_d lt_k; rewrite /bottom_sprites nth_flatten_rows //.
rewrite (nth_map ([::], [::])) ?size_map ?size_iota //.
rewrite (nth_map 0%N) ?size_iota // nth_iota // add0n.
by rewrite digit_frame_lists_bottom (nth_map 0) // nth_angles.
Qed.

Lemma nth_top_sprites (d k : nat) :
  (d < 10)%N -> (k < 10)%N ->
  nth (New (0%N, 0%N)) top_sprites (d * 10 + k) =
  solved_frame (get_top_half (make_sprite (Py.str d))) false (1 + 10 * Posz k).
Proof.
move=> lt_d lt_k; rewrite /top_sprites nth_flatten_rows //.
rewrite (nth_map ([::], [::])) ?size_map ?size_iota //.
rewrite (nth_map 0%N) ?size_iota // nth_iota // add0n.
by rewrite digit_frame_lists_top (nth_map 0) // nth_angles.
Qed.

Lemma index_lt_100 (d k : nat) : (d < 10)%N -> (k < 10)%N -> (d * 10 + k < 100)%N.
Proof.
move=> lt_d lt_k.
apply: (@leq_trans (d * 10 + 10)%N); first by rewrite ltn_add2l.
by rewrite addnC -mulSn -[100%N]/(10 * 10)%N leq_mul2r.
Qed.

Lemma packed_cell (sprites : seq Image) (sheet : Image) (d k : nat) :
  pack_images_to_sheet sprites 10 = Ok sheet ->
  (d * 10 + k < size sprites)%N -> (k < 10)%N ->
  height (nth (New (0%N, 0%N)) sprites (d * 10 + k)) = 50%N ->
  nth no_paste (pasted sheet) (d * 10 + k) =
    (grid_cell 10 50 (d * 10 + k), nth (New (0%N, 0%N)) sprites (d * 10 + k)).
Proof.
case: sprites => [|t ts] //.
have [s' [r [-> _ _ _ Hpast]]] := @pack_images_to_sheet_ok t ts 10 isT.
case=> <- lt_i lt_k Hh.
rewrite Hpast (nth_map (0, New (0%N, 0%N))) ?size_enumerate //.
rewrite nth_enumerate // /tile_coords /grid_cell /= Hh.
by rewrite (modz_nat _ 10) (divz_nat _ 10).
Qed.

Lemma grid_cell_row (d k : nat) :
  (k < 10)%N -> grid_cell 10 50 (d * 10 + k) = (Posz k * 48, Posz d * 50).
Proof.
move=> lt_k.
by rewrite /grid_cell modnMDl modn_small // divnMDl // divn_small // addn0.
Qed.

Lemma size_pasted_packed (sprites : seq Image) (w : int) (sheet : Image) :
  0 < w -> pack_images_to_sheet sprites w = Ok sheet ->
  size (pasted sheet) = size sprites.
Proof.
move=> w0; case: sprites => [|t ts].
  by rewrite /pack_images_to_sheet /ceil_div /Py.truediv gt_eqF.
have [s' [r [-> _ _ _ Hpast]]] := pack_images_to_sheet_ok t ts w0.
by case=> <-; rewrite Hpast size_map size_enumerate.
Qed.

(** X16: The animation sheets hold one digit per row and one angle per column:
    on both sheets 100 frames are pasted, and the one at [(48 * k, 50 * d)]
    is what the loop body of the frame generator returns for the half of
    the sprite of the digit [d] at the planner angle [1 + 10 * k]. *)
Theorem animation_sheets_layout (d k : nat) :
  (d < 10)%N -> (k < 10)%N ->
  exists bottom_sheet top_sheet,
    [/\ make_animations_sheets = Ok (bottom_sheet, top_sheet),
        size (pasted bottom_sheet) = 100%N /\ size (pasted top_sheet) = 100%N,
        (nth no_paste (pasted bottom_sheet) (d * 10 + k)).1
          = (Posz k * 48, Posz d * 50) /\
        angled_sprite (get_bottom_half (make_sprite (Py.str d))) true
          (1 + 10 * Posz k)
          = Ok (nth no_paste (pasted bottom_sheet) (d * 10 + k)).2 &
        (nth no_paste (pasted top_sheet) (d * 10 + k)).1
          = (Posz k * 48, Posz d * 50) /\
        angled_sprite (get_top_half (make_sprite (Py.str d))) false
          (1 + 10 * Posz k)
          = Ok (nth no_paste (pasted top_sheet) (d * 10 + k)).2].
Proof.
move=> lt_d lt_k; have lt_i := index_lt_100 lt_d lt_k.
have [bs Hb _] :=
  pack_sprites first_bottom_sprites size_bottom_sprites (erefl _).
have [ts Ht _] :=
  pack_sprites first_top_sprites size_top_sprites (erefl _).
have Ha : 1 <= 1 + 10 * Posz k <= 91.
  apply/andP; split; first by rewrite lerDl mulr_ge0.
  have -> : (91 : int) = 1 + 10 * Posz 9 by [].
  by rewrite lerD2l ler_pM2l // lez_nat -ltnS.
exists bs, ts; split.
- by rewrite make_animations_sheets_packs; exact: bind_pair Hb Ht.
- split.
    rewrite (@size_pasted_packed _ 10 _ isT Hb); exact: size_bottom_sprites.
  rewrite (@size_pasted_packed _ 10 _ isT Ht); exact: size_top_sprites.
- have Hh : height (nth (New (0%N, 0%N)) bottom_sprites (d * 10 + k)) = 50%N.
    rewrite (nth_bottom_sprites lt_d lt_k); exact: erefl.
  have Hi : (d * 10 + k < size bottom_sprites)%N.
    rewrite size_bottom_sprites; exact: lt_i.
  rewrite (packed_cell Hb Hi lt_k Hh) (grid_cell_row d lt_k).
  rewrite (nth_bottom_sprites lt_d lt_k); split; first exact: erefl.
  exact: (@angled_sprite_ok (get_bottom_half (make_sprite (Py.str d))) true
            _ isT isT Ha).
- have Hh : height (nth (New (0%N, 0%N)) top_sprites (d * 10 + k)) = 50%N.
    rewrite (nth_top_sprites lt_d lt_k); exact: erefl.
  have Hi : (d * 10 + k < size top_sprites)%N.
    rewrite size_top_sprites; exact: lt_i.
  rewrite (packed_cell Ht Hi lt_k Hh) (grid_cell_row d lt_k).
  rewrite (nth_top_sprites lt_d lt_k); split; first exact: erefl.
  exact: (@angled_sprite_ok (get_top_half (make_sprite (Py.str d))) false
            _ isT isT Ha).
Qed.

Lemma animation_sheets_layout_witness :
  exists bottom_sheet top_sheet,
    [/\ make_animations_sheets = Ok (bottom_sheet, top_sheet),
        size (pasted bottom_sheet) = 100%N /\ size (pasted top_sheet) = 100%N,
        (nth no_paste (pasted bottom_sheet) (3 * 10 + 7)).1
          = (Posz 7 * 48, Posz 3 * 50) /\
        angled_sprite (get_bottom_half (make_sprite (Py.str 3))) true
          (1 + 10 * Posz 7)
          = Ok (nth no_paste (pasted bottom_sheet) (3 * 10 + 7)).2 &
        (nth no_paste (pasted top_sheet) (3 * 10 + 7)).1
          = (Posz 7 * 48, Posz 3 * 50) /\
        angled_sprite (get_top_half (make_sprite (Py.str 3))) false
          (1 + 10 * Posz 7)
          = Ok (nth no_paste (pasted top_sheet) (3 * 10 + 7)).2].
Proof. exact: (@animation_sheets_layout 3 7 (erefl _) (erefl _)). Defined.

(** X17: Whatever options are passed, a run of [main] produces the same three
    sheets: a static sheet of 144x400 and two animation sheets of
    480x500. *)
Theorem main_sheets (width_ height_ padding animation_frames : int) :
  exists static_sheet bottom_sheet top_sheet,
    [/\ main width_ height_ padding animation_frames =
          Ok (static_sheet, (bottom_sheet, top_sheet)),
        main width_ height_ padding animation_frames = main 48 100 8 10,
        size_of static_sheet = (144%N, 400%N),
        size_of bottom_sheet = (480%N, 500%N) &
        size_of top_sheet = (480%N, 500%N)].
Proof.
have [bs [ts [Ha Sb St]]] := make_animations_sheets_sizes.
have [ss Hs Ss] : exists2 ss, make_static_sheet = Ok ss &
                              size_of ss = (144%N, 400%N).
  by eexists; first by vm_compute; reflexivity.
exists ss, bs, ts; split=> //.
by rewrite /main Hs Ha.
Qed.
